(** * media-query-plugin: the PostCSS component (src/postcss.js)

    A shallow embedding of the width-interval algebra of [src/postcss.js]
    and of the per-rule driver that copies a media rule into the store and
    decides whether the rule can be removed from its source file.

    Conventions of the embedding.

    - A JavaScript number that the code can hold here is [NaN], one of the
      two infinities, or a double that holds an integer ([Fin z]): the code
      reads decimal integers and only subtracts and adds them.  Reading,
      subtracting and adding round the exact integer result to the nearest
      double ([roundDouble]), as IEEE 754 arithmetic does; negative zero is
      identified with zero (the code only compares, subtracts and adds).
    - A bounds value flowing through [subtractBounds] is [undefined], [null],
      an object [{ minWidth, maxWidth }], an array of such values, or some
      other object or function that has neither property ([VOther]: what a
      plain object inherits from [Object.prototype], for instance).
    - A call that throws in JavaScript ([TypeError] on destructuring [null]
      or [undefined]) is the [TypeError] result.
    - [normalize] (./utils/normalize) and the store (./store) are not part of
      the file; the former is a parameter, the latter is the log of the
      calls made to [store.addMedia].
    - Of the PostCSS tree the model keeps what the callback changes: whether
      the at-rule it visits is still a child of its source tree.  Both
      [container.append(node)] and [node.remove()] take the node out of the
      parent it has.  The media rules of a file are a list: rules nested in
      one another are not modelled. *)

From Stdlib Require Import ZArith List String Ascii Bool Lia.
Import ListNotations.

Set Warnings "-register-all".

Local Open Scope string_scope.
Local Open Scope list_scope.
Local Open Scope Z_scope.

(** ** Results of calls that may throw *)

Inductive result (A : Type) : Type :=
| Ok (a : A)
| TypeError.

Arguments Ok {A} a.
Arguments TypeError {A}.

Definition bind {A B : Type} (r : result A) (k : A -> result B) : result B :=
  match r with
  | Ok a => k a
  | TypeError => TypeError
  end.

Notation "x <- c ;; k" := (bind c (fun x => k))
  (at level 61, c at next level, right associativity).
Notation "' p <- c ;; k" := (bind c (fun x => match x with p => k end))
  (at level 61, p pattern, c at next level, right associativity).

(** ** JavaScript numbers *)

Inductive num : Type :=
| NaN
| NegInf
| Fin (z : Z)
| PosInf.

(** The magnitude of the double nearest to an integer of magnitude [a]:
    below 2^53 every integer is a double; above, a double keeps 53
    significant bits, and a tie goes to the even significand. *)
Definition roundMagnitude (a : Z) : Z :=
  if a <? 2 ^ 53 then a
  else
    let e := Z.log2 a - 52 in
    let q := a / 2 ^ e in
    let r := a mod 2 ^ e in
    let half := 2 ^ (e - 1) in
    let up := if r <? half then false
              else if half <? r then true
              else Z.odd q in
    (if up then q + 1 else q) * 2 ^ e.

(** The double nearest to an integer; a magnitude that rounds to 2^1024 or
    more is an infinity. *)
Definition roundDouble (z : Z) : num :=
  let m := roundMagnitude (Z.abs z) in
  if 2 ^ 1024 <=? m
  then (if z <? 0 then NegInf else PosInf)
  else Fin (Z.sgn z * m).

Arguments roundDouble : simpl never.

Module Js.

(** [a < b] *)
Definition lt (a b : num) : bool :=
  match a, b with
  | NaN, _ | _, NaN => false
  | NegInf, NegInf => false
  | NegInf, _ => true
  | Fin _, NegInf => false
  | Fin x, Fin y => x <? y
  | Fin _, PosInf => true
  | PosInf, _ => false
  end.

(** [a <= b] *)
Definition le (a b : num) : bool :=
  match a, b with
  | NaN, _ | _, NaN => false
  | NegInf, _ => true
  | Fin _, NegInf => false
  | Fin x, Fin y => x <=? y
  | Fin _, PosInf => true
  | PosInf, PosInf => true
  | PosInf, _ => false
  end.

(** [a > b] and [a >= b] *)
Definition gt (a b : num) : bool := lt b a.
Definition ge (a b : num) : bool := le b a.

(** [a == b] on numbers *)
Definition eq (a b : num) : bool :=
  match a, b with
  | NegInf, NegInf => true
  | Fin x, Fin y => x =? y
  | PosInf, PosInf => true
  | _, _ => false
  end.

(** [a - b]: on two integers, the exact difference rounded to a double *)
Definition sub (a b : num) : num :=
  match a, b with
  | NaN, _ | _, NaN => NaN
  | NegInf, NegInf => NaN
  | NegInf, _ => NegInf
  | Fin _, NegInf => PosInf
  | Fin x, Fin y => roundDouble (x - y)
  | Fin _, PosInf => NegInf
  | PosInf, PosInf => NaN
  | PosInf, _ => PosInf
  end.

(** [a + b]: on two integers, the exact sum rounded to a double *)
Definition add (a b : num) : num :=
  match a, b with
  | NaN, _ | _, NaN => NaN
  | NegInf, PosInf | PosInf, NegInf => NaN
  | NegInf, _ | _, NegInf => NegInf
  | PosInf, _ | _, PosInf => PosInf
  | Fin x, Fin y => roundDouble (x + y)
  end.

Definition isNaN (a : num) : bool :=
  match a with NaN => true | _ => false end.

End Js.

(** ** Bounds values *)

Record bounds : Type := mkBounds { minWidth : num; maxWidth : num }.

Inductive value : Type :=
| VUndefined
| VNull
| VObj (b : bounds)
| VArr (l : list value)
| VOther.

(** The pair a parameter pattern [{ minWidth, maxWidth }] binds.  Destructuring
    [null] or [undefined] throws; an array or another object has neither
    property, and the [undefined] it yields behaves as [NaN] in every
    comparison and subtraction of this file. *)
Definition widths (v : value) : result (num * num) :=
  match v with
  | VUndefined | VNull => TypeError
  | VObj b => Ok (minWidth b, maxWidth b)
  | VArr _ | VOther => Ok (NaN, NaN)
  end.

(** [bounds === null] *)
Definition isNull (v : value) : bool :=
  match v with VNull => true | _ => false end.

(** Truthiness of a bounds value, as [.filter((bounds) => bounds)] sees it. *)
Definition truthy (v : value) : bool :=
  match v with
  | VUndefined | VNull => false
  | VObj _ | VArr _ | VOther => true
  end.

(** The markers of the specification. *)
Definition Empty : value := VNull.
Definition untracked : bounds := mkBounds NaN NaN.
Definition Untracked : value := VObj untracked.

(** ** The interval algebra (lines 38-124) *)

(** [nullBounds]: applied by the source only to the two object literals of
    the split. *)
Definition nullBounds (b : bounds) : value :=
  if Js.eq (minWidth b) (maxWidth b) then VNull else VObj b.

Definition boundsIncluded (boundsA boundsB : value) : result bool :=
  '(minW, maxW) <- widths boundsA ;;
  '(boundsMinWidth, boundsMaxWidth) <- widths boundsB ;;
  Ok (Js.ge minW boundsMinWidth && Js.le maxW boundsMaxWidth).

Definition boundsIntersects (boundsA boundsB : value) : result bool :=
  '(minWidthA, maxWidthA) <- widths boundsA ;;
  '(minWidthB, maxWidthB) <- widths boundsB ;;
  if Js.le minWidthA minWidthB
  then Ok (Js.gt maxWidthA minWidthB)
  else Ok (Js.lt minWidthA maxWidthB).

(** What [flatMap] splices for one callback result: the elements of an
    array, or the value itself. *)
Definition spread (v : value) : list value :=
  match v with
  | VArr l => l
  | _ => [v]
  end.

Fixpoint subtractBounds (boundsA boundsB : value) {struct boundsA} : result value :=
  match boundsA with
  | VArr l =>
      l' <- (fix flatMap (l : list value) : result (list value) :=
               match l with
               | [] => Ok []
               | b :: rest =>
                   r <- subtractBounds b boundsB ;;
                   rs <- flatMap rest ;;
                   Ok (spread r ++ rs)
               end) l ;;
      Ok (VArr l')
  | VNull => Ok VNull
  | _ =>
      if isNull boundsB then Ok boundsA else
      inclAB <- boundsIncluded boundsA boundsB ;;
      if inclAB : bool then Ok VNull else
      inclBA <- boundsIncluded boundsB boundsA ;;
      if inclBA : bool then
        '(aMin, aMax) <- widths boundsA ;;
        '(bMin, bMax) <- widths boundsB ;;
        Ok (VArr (map nullBounds [mkBounds aMin bMin; mkBounds bMax aMax]))
      else
      inter <- boundsIntersects boundsA boundsB ;;
      if inter : bool then
        '(aMin, aMax) <- widths boundsA ;;
        '(bMin, bMax) <- widths boundsB ;;
        if Js.lt aMin bMin
        then Ok (VObj (mkBounds aMin bMin))
        else Ok (VObj (mkBounds bMax aMax))
      else Ok boundsA
  end.

Definition getBoundsSize (b : value) : result num :=
  '(minW, maxW) <- widths b ;;
  let x := Js.sub maxW minW in
  Ok (if Js.gt x (Fin 1) then Js.sub x (Fin 1) else Fin 0).

(** ** The two width patterns (lines 10-11)

    [/min\-width:([+-]?\d+)px/] and [/max\-width:([+-]?\d+)px/] differ in
    their literal prefix only.  Both quantifiers are greedy and neither can
    give anything back: after an optional sign only a digit may follow, and
    after the longest run of digits only [px].  A match at one position is
    therefore decided by one left-to-right pass, and [exec] takes the
    leftmost position that matches. *)

Fixpoint stripPrefix (p s : string) : option string :=
  match p with
  | EmptyString => Some s
  | String c p' =>
      match s with
      | EmptyString => None
      | String d s' => if Ascii.eqb c d then stripPrefix p' s' else None
      end
  end.

Definition isDigit (c : ascii) : bool :=
  let n := nat_of_ascii c in (48 <=? n)%nat && (n <=? 57)%nat.

Definition isSign (c : ascii) : bool :=
  Ascii.eqb c "+"%char || Ascii.eqb c "-"%char.

(** The longest run of digits at the head of [s], and what follows it. *)
Fixpoint spanDigits (s : string) : string * string :=
  match s with
  | EmptyString => (EmptyString, EmptyString)
  | String c s' =>
      if isDigit c
      then let (ds, rest) := spanDigits s' in (String c ds, rest)
      else (EmptyString, s)
  end.

(** The text captured by group 1 when the pattern with prefix [tok] matches
    at the head of [s]. *)
Definition matchWidthHere (tok s : string) : option string :=
  match stripPrefix tok s with
  | None => None
  | Some rest =>
      let (sign, rest1) :=
        match rest with
        | String c r => if isSign c then (String c EmptyString, r) else (EmptyString, rest)
        | EmptyString => (EmptyString, rest)
        end in
      let (ds, rest2) := spanDigits rest1 in
      match ds with
      | EmptyString => None
      | _ =>
          match stripPrefix "px" rest2 with
          | Some _ => Some (sign ++ ds)%string
          | None => None
          end
      end
  end.

(** [re.exec(s)?.[1]]: group 1 of the leftmost match, if any. *)
Fixpoint execWidth (tok s : string) : option string :=
  match matchWidthHere tok s with
  | Some cap => Some cap
  | None =>
      match s with
      | EmptyString => None
      | String _ s' => execWidth tok s'
      end
  end.

Definition minWidthRegExp : string -> option string := execWidth "min-width:".
Definition maxWidthRegExp : string -> option string := execWidth "max-width:".

(** The integer that a captured [[+-]?\d+] writes in decimal. *)
Fixpoint decimal (acc : Z) (s : string) : Z :=
  match s with
  | EmptyString => acc
  | String c s' => decimal (10 * acc + (Z.of_nat (nat_of_ascii c) - 48)) s'
  end.

Definition writtenInteger (cap : string) : Z :=
  match cap with
  | String "-"%char ds => - decimal 0 ds
  | String "+"%char ds => decimal 0 ds
  | _ => decimal 0 cap
  end.

(** Unary plus on a captured text: the double nearest to the integer it
    writes. *)
Definition numberOfCapture (cap : string) : num :=
  roundDouble (writtenInteger cap).

(** [+(re.exec(nquery)?.[1] ?? undefined)]: no match gives [+undefined],
    which is [NaN]. *)
Definition toNumber (cap : option string) : num :=
  match cap with
  | Some c => numberOfCapture c
  | None => NaN
  end.

(** Lines 23-30, on the two extracted numbers. *)
Definition boundsOfWidths (minW maxW : num) : bounds :=
  if Js.gt minW (Fin 0) || Js.gt maxW (Fin 0)
  then {| minWidth := if Js.ge minW (Fin 0) then minW else NegInf;
          maxWidth := if Js.ge maxW (Fin 0) then maxW else PosInf |}
  else {| minWidth := minW; maxWidth := maxW |}.

(** ** Group matchers and the plugin options *)

Inductive group : Type :=
| GRegExp (matches : string -> bool)
| GArray (members : list string)
| GOther.

Record options : Type := mkOptions {
  queries : list (string * string);
  groups : list (string * group);
  basename : string;
  path : string
}.

(** A media at-rule, as far as the plugin reads it: its [params] and the
    text that a root holding just this rule renders
    ([postcss.root().append(atRule).toString()]). *)
Record atRule : Type := mkAtRule { params : string; css : string }.

(** One call [store.addMedia(name, css, options.path, query)]. *)
Record media : Type := mkMedia {
  mediaName : string;
  mediaCss : string;
  mediaPath : string;
  mediaQuery : string
}.

Definition store : Type := list media.

(** Property lookup on an object used as a table: the keys, in
    [Object.keys] order, and [obj[k]]. *)
Definition keys {V : Type} (obj : list (string * V)) : list string := map fst obj.

Fixpoint lookup {V : Type} (obj : list (string * V)) (k : string) : option V :=
  match obj with
  | [] => None
  | (k', v) :: rest => if String.eqb k' k then Some v else lookup rest k
  end.

(** ** Effects of the rule callback: the store, the source tree, exceptions

    The callback acts on the log of the [store.addMedia] calls made so far
    and on the at-rule it visits: [attached] tells whether that rule is
    still a child of its source tree.  A throw keeps the effects already
    made. *)

Record world : Type := mkWorld { stored : store; attached : bool }.

Definition M (A : Type) : Type := world -> world * result A.

Definition ret {A : Type} (a : A) : M A := fun w => (w, Ok a).

Definition bindM {A B : Type} (c : M A) (k : A -> M B) : M B :=
  fun w =>
    match c w with
    | (w', Ok a) => k a w'
    | (w', TypeError) => (w', TypeError)
    end.

Definition lift {A : Type} (r : result A) : M A := fun w => (w, r).

Definition addMedia (m : media) : M unit :=
  fun w => (mkWorld (stored w ++ [m]) (attached w), Ok tt).

(** The visited rule leaves the parent it has: what [container.append(node)]
    does to a node before it adopts it, and what [node.remove()] does. *)
Definition detach : M unit :=
  fun w => (mkWorld (stored w) false, Ok tt).

Notation "x <-- c ;;; k" := (bindM c (fun x => k))
  (at level 61, c at next level, right associativity).
Notation "c ;;; k" := (bindM c (fun _ => k))
  (at level 61, right associativity).

(** [array.reduce(f, init)] with a callback that has effects. *)
Fixpoint reduceM {A B : Type} (f : A -> B -> M A) (l : list B) (init : A) : M A :=
  match l with
  | [] => ret init
  | x :: rest => a <-- f init x ;;; reduceM f rest a
  end.

(** [array.filter(p)] and [array.reduce(f, init)] with a callback that may
    throw. *)
Fixpoint filterR {A : Type} (p : A -> result bool) (l : list A) : result (list A) :=
  match l with
  | [] => Ok []
  | x :: rest =>
      keep <- p x ;;
      kept <- filterR p rest ;;
      Ok (if keep : bool then x :: kept else kept)
  end.

Fixpoint reduceR {A B : Type} (f : A -> B -> result A) (l : list B) (init : A) : result A :=
  match l with
  | [] => Ok init
  | x :: rest => a <- f init x ;; reduceR f rest a
  end.

(** [array.flat()]: one level; only an array has the method. *)
Definition flat (v : value) : result (list value) :=
  match v with
  | VArr l => Ok (flat_map spread l)
  | _ => TypeError
  end.

(** A value inside a template literal, and its truthiness in [x ? a : b]. *)
Definition text (o : option string) : string :=
  match o with
  | Some s => s
  | None => "undefined"
  end.

Definition truthyText (o : option string) : bool :=
  match o with
  | Some s => negb (String.eqb s "")
  | None => false
  end.

(** The names a plain object inherits from [Object.prototype], and the value
    read under a name that is no own key: a function or an object for those
    names, [undefined] for any other. *)
Definition objectPrototypeNames : list string :=
  ["constructor"; "hasOwnProperty"; "isPrototypeOf"; "propertyIsEnumerable";
   "toLocaleString"; "toString"; "valueOf"; "__defineGetter__";
   "__defineSetter__"; "__lookupGetter__"; "__lookupSetter__"; "__proto__"].

Definition inheritedMember (name : string) : value :=
  if existsb (String.eqb name) objectPrototypeNames then VOther else VUndefined.

Section Plugin.

(** ./utils/normalize *)
Variable normalize : string -> string.

Definition getQueryBounds (query : string) : bounds :=
  let nquery := normalize query in
  let minW := toNumber (minWidthRegExp nquery) in
  let maxW := toNumber (maxWidthRegExp nquery) in
  boundsOfWidths minW maxW.

Variable opts : options.

(** Lines 127-133: one entry per key of [options.queries]. *)
Definition queriesBounds : list (string * bounds) :=
  map (fun query => (query, getQueryBounds query)) (keys (queries opts)).

(** [queriesBounds[q]]: the table is a plain object, so a text that is none
    of its keys reads what [Object.prototype] holds under that name. *)
Definition queriesBoundsAt (q : string) : value :=
  match lookup queriesBounds q with
  | Some b => VObj b
  | None => inheritedMember q
  end.

Definition getGroupName (name : string) : option string :=
  (fix loop (groupNames : list string) : option string :=
     match groupNames with
     | [] => None
     | groupName :: rest =>
         match lookup (groups opts) groupName with
         | Some (GRegExp matches) => if matches name then Some groupName else loop rest
         | Some (GArray members) =>
             if existsb (String.eqb name) members then Some groupName else loop rest
         | _ => loop rest
         end
     end) (keys (groups opts)).

Definition candidate : Type := (option string * string)%type.

Definition getQueryNamesByBounds (queryBounds : value) : result (list candidate) :=
  qs <- filterR (fun q => boundsIntersects queryBounds (queriesBoundsAt q))
                (keys (queries opts)) ;;
  Ok (map (fun q => (lookup (queries opts) q, q)) qs).

Definition getQueryNamesByDefinition (query : string) : list candidate :=
  map (fun q => (lookup (queries opts) q, q))
      (filter (fun q => String.eqb (normalize q) (normalize query))
              (keys (queries opts))).

(** Lines 135-140: appending the rule to a fresh root moves it there, out
    of its source tree, before the root is rendered. *)
Definition addToStore (name : string) (rule : atRule) : M unit :=
  detach ;;;
  let css := css rule in
  let query := params rule in
  addMedia (mkMedia name css (path opts) query).

(** Lines 178-181 *)
Definition queryNames (rule : atRule) : result (list candidate) :=
  let ruleQueryBounds := VObj (getQueryBounds (params rule)) in
  byBounds <- getQueryNamesByBounds ruleQueryBounds ;;
  Ok (byBounds ++ getQueryNamesByDefinition (params rule)).

(** The bucket name of lines 191-194. *)
Definition bucketName (queryName : option string) : string :=
  let groupName := getGroupName (basename opts) in
  if truthyText groupName
  then (text groupName ++ "-" ++ text queryName)%string
  else (basename opts ++ "-" ++ text queryName)%string.

(** The callback of the first [reduce] (lines 190-199). *)
Definition copyAndSubtract (rule : atRule) (remainder : value) (c : candidate) : M value :=
  let '(queryName, query) := c in
  let name := bucketName queryName in
  addToStore name rule ;;;
  lift (subtractBounds remainder (queriesBoundsAt query)).

(** Lines 202-204, on the remainder the first [reduce] returns. *)
Definition remainderSize (remainder : value) : result num :=
  flattened <- flat remainder ;;
  reduceR (fun size b => s <- getBoundsSize b ;; Ok (Js.add size s))
          (filter truthy flattened) (Fin 0).

(** Lines 188-204 *)
Definition boundsRemainderSize (rule : atRule) (names : list candidate) : M num :=
  let ruleQueryBounds := VObj (getQueryBounds (params rule)) in
  remainder <-- reduceM (copyAndSubtract rule) names (VArr [ruleQueryBounds]) ;;;
  lift (remainderSize remainder).

(** The [walkAtRules] callback (lines 176-209); the result tells whether
    [atRule.remove()] was called. *)
Definition processAtRule (rule : atRule) : M bool :=
  names <-- lift (queryNames rule) ;;;
  size <-- boundsRemainderSize rule names ;;;
  if (0 <? Z.of_nat (List.length names)) && Js.eq size (Fin 0)
  then detach ;;; ret true
  else ret false.

(** [css.walkAtRules('media', callback)] on the media rules of a source
    file, visited in order, each one a child of the tree when its turn
    comes; the result is the rules that are still in the tree at the end. *)
Fixpoint walkAtRules (rules : list atRule) (st : store) : store * result (list atRule) :=
  match rules with
  | [] => (st, Ok [])
  | rule :: rest =>
      match processAtRule rule (mkWorld st true) with
      | (w, Ok _) =>
          match walkAtRules rest (stored w) with
          | (st', Ok kept) => (st', Ok (if attached w then rule :: kept else kept))
          | (st', TypeError) => (st', TypeError)
          end
      | (w, TypeError) => (stored w, TypeError)
      end
  end.

End Plugin.

(** ** Definitions used to state the properties *)

(** Modelled from the spec: ./utils/normalize is not among the sources.  The
    specification says that it makes the text tolerant to white space and
    formatting variance, and its parsing examples need the blanks after
    [min-width:] gone; this instance removes white space.  It is used only
    to run the parser on concrete texts. *)
Fixpoint removeSpaces (s : string) : string :=
  match s with
  | EmptyString => EmptyString
  | String c s' =>
      if Ascii.eqb c " "%char || Ascii.eqb c "009"%char
         || Ascii.eqb c "010"%char || Ascii.eqb c "013"%char
      then removeSpaces s'
      else String c (removeSpaces s')
  end.

(** The parser as the specification words it (section 4.1, steps 3 and 4),
    on what each side extracted: a number, or nothing. *)
Definition isPositive (x : option num) : bool :=
  match x with Some n => Js.gt n (Fin 0) | None => false end.

Definition rawWidth (x : option num) : num :=
  match x with Some n => n | None => NaN end.

Definition parseSpec (extractedMin extractedMax : option num) : bounds :=
  if isPositive extractedMin || isPositive extractedMax
  then {| minWidth := match extractedMin with
                      | Some n => if Js.ge n (Fin 0) then n else NegInf
                      | None => NegInf
                      end;
          maxWidth := match extractedMax with
                      | Some n => if Js.ge n (Fin 0) then n else PosInf
                      | None => PosInf
                      end |}
  else {| minWidth := rawWidth extractedMin; maxWidth := rawWidth extractedMax |}.

Definition extracted (cap : option string) : option num :=
  option_map numberOfCapture cap.

(** Neither endpoint is [NaN]. *)
Definition numeric (b : bounds) : bool :=
  negb (Js.isNaN (minWidth b)) && negb (Js.isNaN (maxWidth b)).

(** [minWidth < maxWidth] holds (so both endpoints are numbers). *)
Definition proper (b : bounds) : bool := Js.lt (minWidth b) (maxWidth b).

(** [minWidth >= maxWidth] holds: equal or inverted endpoints. *)
Definition degenerate (b : bounds) : bool := Js.ge (minWidth b) (maxWidth b).

(** An entry of a remainder list: [null] or a proper object. *)
Definition properEntry (v : value) : bool :=
  match v with
  | VNull => true
  | VObj b => proper b
  | _ => false
  end.

(** A result of subtraction whose objects are all proper. *)
Definition properValue (v : value) : bool :=
  match v with
  | VArr l => forallb properEntry l
  | _ => properEntry v
  end.

(** The inputs the specification draws from: Bounds, Empty, Untracked, and
    lists of them; [undefined] is not one of them. *)
Fixpoint inDomain (v : value) : bool :=
  match v with
  | VUndefined | VOther => false
  | VNull | VObj _ => true
  | VArr l => forallb inDomain l
  end.

(** The [flatMap] of [subtractBounds], as a function of its own. *)
Fixpoint subtractEach (l : list value) (boundsB : value) : result (list value) :=
  match l with
  | [] => Ok []
  | b :: rest =>
      r <- subtractBounds b boundsB ;;
      rs <- subtractEach rest boundsB ;;
      Ok (spread r ++ rs)
  end.

(** A text made of decimal digits only. *)
Fixpoint allDigits (s : string) : bool :=
  match s with
  | EmptyString => true
  | String c s' => isDigit c && allDigits s'
  end.

(** The intersection test on two objects. *)
Definition overlap (a b : bounds) : bool :=
  if Js.le (minWidth a) (minWidth b)
  then Js.gt (maxWidth a) (minWidth b)
  else Js.lt (minWidth a) (maxWidth b).

(** An entry of the remainder list of the reducer: [null] or an object. *)
Definition isEntry (v : value) : bool :=
  match v with
  | VNull | VObj _ => true
  | _ => false
  end.

Section PluginSpec.

Variable normalize : string -> string.
Variable opts : options.

Definition candidateOf (q : string) : candidate := (lookup (queries opts) q, q).

(** The breakpoints whose bounds intersect the bounds of the rule, and those
    whose condition text normalizes to that of the rule, in table order. *)
Definition candidatesByBounds (rule : atRule) : list candidate :=
  map candidateOf
      (filter (fun q => overlap (getQueryBounds normalize (params rule))
                                (getQueryBounds normalize q))
              (keys (queries opts))).

Definition candidatesByAlias (rule : atRule) : list candidate :=
  map candidateOf
      (filter (fun q => String.eqb (normalize q) (normalize (params rule)))
              (keys (queries opts))).

(** Every candidate names a key of the table. *)
Definition fromTable (names : list candidate) : Prop :=
  Forall (fun c => In (snd c) (keys (queries opts))) names.

(** The state after a rule was stored under some entries: they are at the
    end of the log, and the rule stays in its tree only if there were none. *)
Definition afterEntries (w : world) (entries : list media) : world :=
  mkWorld (stored w ++ entries)
          (attached w && match entries with [] => true | _ => false end).

(** The store entry written for one candidate of a rule. *)
Definition emission (rule : atRule) (c : candidate) : media :=
  mkMedia (bucketName opts (fst c)) (css rule) (path opts) (params rule).

(** The remainder after subtracting the bounds of each candidate in turn,
    and the residual size, without the store. *)
Definition subtractCandidate (remainder : value) (c : candidate) : result value :=
  subtractBounds remainder (queriesBoundsAt normalize opts (snd c)).

Definition remainderOf (rule : atRule) (names : list candidate) : result value :=
  reduceR subtractCandidate names
          (VArr [VObj (getQueryBounds normalize (params rule))]).

Definition residual (rule : atRule) (names : list candidate) : result num :=
  remainder <- remainderOf rule names ;;
  remainderSize remainder.

(** The test of line 206 for a rule: whether the callback calls
    [atRule.remove()]. *)
Definition removalTest (rule : atRule) : bool :=
  match queryNames normalize opts rule with
  | Ok names =>
      match residual rule names with
      | Ok size => negb (Nat.eqb (List.length names) 0) && Js.eq size (Fin 0)
      | TypeError => false
      end
  | TypeError => false
  end.


End PluginSpec.

(** ** Definitions used to state further properties *)

(** The pixel positions of a Bounds read as the half-open interval
    [[minWidth, maxWidth)]. *)
Definition contains (b : bounds) (x : Z) : bool :=
  Js.le (minWidth b) (Fin x) && Js.lt (Fin x) (maxWidth b).

(** The positions of a bounds value: none for [null], those of an object,
    those of any element of an array. *)
Fixpoint covers (v : value) (x : Z) : bool :=
  match v with
  | VObj b => contains b x
  | VArr l => existsb (fun e => covers e x) l
  | _ => false
  end.

(** A position common to two proper Bounds that overlap. *)
Definition commonPoint (a b : bounds) : Z :=
  match (if Js.le (minWidth a) (minWidth b) then minWidth b else minWidth a) with
  | Fin lower => lower
  | _ =>
      match (if Js.le (maxWidth a) (maxWidth b) then maxWidth a else maxWidth b) with
      | Fin upper => upper - 1
      | _ => 0
      end
  end.

(** A position of a proper Bounds. *)
Definition somePoint (b : bounds) : Z := commonPoint b b.

(** An entry that adds nothing to the residual size: [null], or a Bounds of
    exactly one pixel. *)
Definition onePixelEntry (v : value) : bool :=
  match v with
  | VNull => true
  | VObj {| minWidth := Fin lo; maxWidth := Fin hi |} => hi =? lo + 1
  | _ => false
  end.

(** Whether the group configured under [groupName] accepts [name]. *)
Definition groupAccepts (opts : options) (name groupName : string) : bool :=
  match lookup (groups opts) groupName with
  | Some (GRegExp matches) => matches name
  | Some (GArray members) => existsb (String.eqb name) members
  | _ => false
  end.

(** The positions of the breakpoints of a candidate list. *)
Definition coveredBy (normalize : string -> string) (names : list candidate)
    (x : Z) : bool :=
  existsb (fun c => contains (getQueryBounds normalize (snd c)) x) names.

(** Every candidate stands for a breakpoint with [minWidth < maxWidth]. *)
Definition properCandidates (normalize : string -> string)
    (names : list candidate) : Prop :=
  Forall (fun c => proper (getQueryBounds normalize (snd c)) = true) names.

(** Whether a rule has a candidate. *)
Definition hasCandidate (normalize : string -> string) (opts : options)
    (rule : atRule) : bool :=
  negb (Nat.eqb (List.length (candidatesByBounds normalize opts rule
                              ++ candidatesByAlias normalize opts rule)) 0).

(** The store entries the callback writes for a rule. *)
Definition entriesOf (normalize : string -> string) (opts : options)
    (rule : atRule) : list media :=
  map (emission opts rule)
      (candidatesByBounds normalize opts rule ++ candidatesByAlias normalize opts rule).

(** ** Tactics *)

Ltac zbool :=
  repeat match goal with
    | H : context [Z.ltb ?x ?y] |- _ => destruct (Z.ltb_spec x y)
    | H : context [Z.leb ?x ?y] |- _ => destruct (Z.leb_spec x y)
    | H : context [Z.eqb ?x ?y] |- _ => destruct (Z.eqb_spec x y)
    | |- context [Z.ltb ?x ?y] => destruct (Z.ltb_spec x y)
    | |- context [Z.leb ?x ?y] => destruct (Z.leb_spec x y)
    | |- context [Z.eqb ?x ?y] => destruct (Z.eqb_spec x y)
    end.

Ltac js_unfold :=
  unfold Js.gt, Js.ge, Js.lt, Js.le, Js.eq, Js.sub, Js.add, Js.isNaN in *.

Ltac num_cases :=
  repeat match goal with n : num |- _ => destruct n end;
  js_unfold; simpl in *; try discriminate; try reflexivity;
  zbool; simpl in *; try discriminate; try reflexivity; try lia;
  try (f_equal; f_equal; lia).

Ltac bounds_cases :=
  repeat match goal with b : bounds |- _ => destruct b end;
  unfold proper, degenerate, numeric in *; simpl in *.

Ltac object_cases :=
  repeat match goal with n : num |- _ => destruct n end;
  js_unfold; simpl in *; try discriminate;
  zbool; simpl in *; try discriminate; try lia.

Ltac algebra_unfold :=
  unfold boundsIncluded, boundsIntersects, getBoundsSize, nullBounds, bind, widths,
    Untracked, untracked, Empty in *;
  simpl in *.

(** An induction principle that reaches the elements of an array. *)
Definition value_ind_nested (P : value -> Prop)
    (Hu : P VUndefined) (Hn : P VNull) (Ho : forall b, P (VObj b))
    (Ha : forall l, Forall P l -> P (VArr l)) (Hx : P VOther) : forall v, P v :=
  fix go (v : value) : P v :=
    match v with
    | VUndefined => Hu
    | VNull => Hn
    | VOther => Hx
    | VObj b => Ho b
    | VArr l =>
        Ha l ((fix all (l : list value) : Forall P l :=
                 match l with
                 | [] => Forall_nil P
                 | x :: rest => Forall_cons x (go x) (all rest)
                 end) l)
    end.

(** ** Rounding to a double *)

Lemma log2_large (a : Z) : 2 ^ 53 <= a -> 53 <= Z.log2 a.
Proof.
  intros H. apply Z.log2_le_pow2; lia.
Qed.

(* facts about one binade *)
Lemma binade (a : Z) :
  2 ^ 53 <= a ->
  let e := Z.log2 a - 52 in
  1 <= e /\ 0 < 2 ^ e /\
  2 ^ Z.log2 a = 2 ^ 52 * 2 ^ e /\
  2 ^ (Z.log2 a + 1) = 2 ^ 53 * 2 ^ e /\
  2 ^ Z.log2 a <= a < 2 ^ (Z.log2 a + 1) /\
  2 ^ 52 <= a / 2 ^ e < 2 ^ 53.
Proof.
  intros Ha e. pose proof (log2_large a Ha) as Hl.
  assert (He : 1 <= e) by (unfold e; lia).
  assert (Hpos : 0 < 2 ^ e) by (apply Z.pow_pos_nonneg; lia).
  assert (H1 : 2 ^ Z.log2 a = 2 ^ 52 * 2 ^ e).
  { rewrite <- Z.pow_add_r by lia. f_equal. unfold e. lia. }
  assert (H2 : 2 ^ (Z.log2 a + 1) = 2 ^ 53 * 2 ^ e).
  { rewrite <- Z.pow_add_r by lia. f_equal. unfold e. lia. }
  assert (Hspec : 2 ^ Z.log2 a <= a < 2 ^ (Z.log2 a + 1)).
  { pose proof (Z.log2_spec a ltac:(lia)) as Hs. unfold Z.succ in Hs. exact Hs. }
  repeat split; try assumption; try lia.
  - apply Z.div_le_lower_bound; lia.
  - apply Z.div_lt_upper_bound; lia.
Qed.

Lemma roundMagnitude_bounds (a : Z) :
  2 ^ 53 <= a ->
  2 ^ Z.log2 a <= roundMagnitude a <= 2 ^ (Z.log2 a + 1).
Proof.
  intros Ha. destruct (binade a Ha) as [He [Hpos [H1 [H2 [Hspec Hq]]]]].
  unfold roundMagnitude.
  destruct (Z.ltb_spec a (2 ^ 53)); [lia |].
  cbv zeta.
  set (e := Z.log2 a - 52) in *. set (u := 2 ^ e) in *. set (q := a / u) in *.
  rewrite H1, H2.
  destruct (if a mod u <? 2 ^ (e - 1) then false
            else if 2 ^ (e - 1) <? a mod u then true else Z.odd q); nia.
Qed.

Lemma roundMagnitude_mono (x y : Z) :
  0 <= x <= y -> roundMagnitude x <= roundMagnitude y.
Proof.
  intros [Hx Hxy].
  destruct (Z.ltb_spec y (2 ^ 53)) as [Hy | Hy].
  - unfold roundMagnitude.
    destruct (Z.ltb_spec x (2 ^ 53)); destruct (Z.ltb_spec y (2 ^ 53)); lia.
  - destruct (Z.ltb_spec x (2 ^ 53)) as [Hx53 | Hx53].
    + pose proof (roundMagnitude_bounds y Hy) as [Hlo _].
      pose proof (log2_large y Hy) as Hl.
      assert (2 ^ 53 <= 2 ^ Z.log2 y) by (apply Z.pow_le_mono_r; lia).
      unfold roundMagnitude at 1. destruct (Z.ltb_spec x (2 ^ 53)); lia.
    + pose proof (Z.log2_le_mono x y Hxy) as Hlog.
      destruct (Z.eq_dec (Z.log2 x) (Z.log2 y)) as [Heq | Hne].
      * destruct (binade x Hx53) as [He [Hpos [H1 [H2 [Hspec Hq]]]]].
        unfold roundMagnitude.
        destruct (Z.ltb_spec x (2 ^ 53)); [lia |].
        destruct (Z.ltb_spec y (2 ^ 53)); [lia |].
        cbv zeta. rewrite <- Heq.
        set (e := Z.log2 x - 52) in *. set (u := 2 ^ e) in *.
        assert (Hhalf : 2 * 2 ^ (e - 1) = u).
        { unfold u. replace e with (1 + (e - 1)) at 2 by lia.
          rewrite Z.pow_add_r by lia. reflexivity. }
        set (h := 2 ^ (e - 1)) in *.
        pose proof (Z.div_mod x u ltac:(lia)) as Hdx.
        pose proof (Z.div_mod y u ltac:(lia)) as Hdy.
        pose proof (Z.mod_pos_bound x u Hpos) as Hrx.
        pose proof (Z.mod_pos_bound y u Hpos) as Hry.
        assert (Hqq : x / u <= y / u) by (apply Z.div_le_mono; lia).
        set (qx := x / u) in *. set (qy := y / u) in *.
        set (rx := x mod u) in *. set (ry := y mod u) in *.
        destruct (Z.eq_dec qx qy) as [Hqe | Hqn].
        -- rewrite <- Hqe in *.
           assert (rx <= ry) by nia.
           destruct (Z.ltb_spec rx h); destruct (Z.ltb_spec ry h);
             destruct (Z.ltb_spec h rx); destruct (Z.ltb_spec h ry);
             destruct (Z.odd qx); nia.
        -- assert (qx + 1 <= qy) by lia.
           destruct (if rx <? h then false else if h <? rx then true else Z.odd qx);
             destruct (if ry <? h then false else if h <? ry then true else Z.odd qy);
             nia.
      * pose proof (roundMagnitude_bounds x Hx53) as [_ Hhi].
        pose proof (roundMagnitude_bounds y Hy) as [Hlo _].
        assert (2 ^ (Z.log2 x + 1) <= 2 ^ Z.log2 y) by (apply Z.pow_le_mono_r; lia).
        lia.
Qed.

Lemma roundMagnitude_exact (a : Z) : a < 2 ^ 53 -> roundMagnitude a = a.
Proof.
  intros H. unfold roundMagnitude. destruct (Z.ltb_spec a (2 ^ 53)); lia.
Qed.

Lemma roundMagnitude_nonneg (a : Z) : 0 <= a -> 0 <= roundMagnitude a.
Proof.
  intros H. pose proof (roundMagnitude_mono 0 a ltac:(lia)) as Hm.
  rewrite (roundMagnitude_exact 0) in Hm by reflexivity. exact Hm.
Qed.

(** An integer below 2^53 in magnitude is a double. *)
Lemma roundDouble_exact (z : Z) : Z.abs z < 2 ^ 53 -> roundDouble z = Fin z.
Proof.
  intros H. unfold roundDouble. cbv zeta. rewrite (roundMagnitude_exact _ H).
  destruct (Z.leb_spec (2 ^ 1024) (Z.abs z)) as [Hbig | _].
  - assert (2 ^ 53 <= 2 ^ 1024) by (apply Z.pow_le_mono_r; lia). lia.
  - f_equal. lia.
Qed.

(** Rounding keeps the order. *)
Lemma roundDouble_mono (x y : Z) :
  x <= y -> Js.le (roundDouble x) (roundDouble y) = true.
Proof.
  intros Hxy. unfold roundDouble. cbv zeta.
  pose proof (roundMagnitude_nonneg (Z.abs x) (Z.abs_nonneg x)) as Hmx.
  pose proof (roundMagnitude_nonneg (Z.abs y) (Z.abs_nonneg y)) as Hmy.
  destruct (Z.ltb_spec x 0) as [Hx | Hx]; destruct (Z.ltb_spec y 0) as [Hy | Hy];
    try lia.
  - pose proof (roundMagnitude_mono (Z.abs y) (Z.abs x) ltac:(lia)) as Hm.
    destruct (Z.leb_spec (2 ^ 1024) (roundMagnitude (Z.abs x)));
      destruct (Z.leb_spec (2 ^ 1024) (roundMagnitude (Z.abs y)));
      simpl; try reflexivity; try lia; try (apply Z.leb_le; nia).
  - destruct (Z.leb_spec (2 ^ 1024) (roundMagnitude (Z.abs x)));
      destruct (Z.leb_spec (2 ^ 1024) (roundMagnitude (Z.abs y)));
      simpl; try reflexivity; try lia; try (apply Z.leb_le; nia).
  - pose proof (roundMagnitude_mono (Z.abs x) (Z.abs y) ltac:(lia)) as Hm.
    destruct (Z.leb_spec (2 ^ 1024) (roundMagnitude (Z.abs x)));
      destruct (Z.leb_spec (2 ^ 1024) (roundMagnitude (Z.abs y)));
      simpl; try reflexivity; try lia; try (apply Z.leb_le; nia).
Qed.

Lemma roundDouble_not_nan (z : Z) : roundDouble z <> NaN.
Proof.
  unfold roundDouble. cbv zeta.
  destruct (2 ^ 1024 <=? _); [destruct (z <? 0) |]; discriminate.
Qed.

(** Rounding does not cross a small integer. *)
Lemma roundDouble_ge (k z : Z) :
  Z.abs k < 2 ^ 53 -> k <= z -> Js.le (Fin k) (roundDouble z) = true.
Proof.
  intros Hk Hkz. rewrite <- (roundDouble_exact k Hk). apply roundDouble_mono. exact Hkz.
Qed.

Lemma roundDouble_le (k z : Z) :
  Z.abs k < 2 ^ 53 -> z <= k -> Js.le (roundDouble z) (Fin k) = true.
Proof.
  intros Hk Hkz. rewrite <- (roundDouble_exact k Hk). apply roundDouble_mono. exact Hkz.
Qed.

Lemma le_PosInf (x : num) : x <> NaN -> Js.le x PosInf = true.
Proof. destruct x; intros H; try reflexivity. contradiction. Qed.

(** Line 123 on a gap: never negative, and growing with the gap. *)
Lemma gap_size_nonneg (gap : num) :
  Js.ge (if Js.gt gap (Fin 1) then Js.sub gap (Fin 1) else Fin 0) (Fin 0) = true.
Proof.
  destruct gap; try reflexivity.
  unfold Js.gt, Js.lt, Js.ge, Js.sub.
  destruct (Z.ltb_spec 1 z); [| reflexivity].
  apply roundDouble_ge; [reflexivity | lia].
Qed.

Lemma gap_size_mono (gap1 gap2 : num) :
  Js.le gap1 gap2 = true ->
  Js.le (if Js.gt gap1 (Fin 1) then Js.sub gap1 (Fin 1) else Fin 0)
        (if Js.gt gap2 (Fin 1) then Js.sub gap2 (Fin 1) else Fin 0) = true.
Proof.
  intros H. pose proof (gap_size_nonneg gap2) as Hnn. unfold Js.ge in Hnn.
  destruct gap1 as [| | z1 |]; try discriminate.
  - exact Hnn.
  - destruct gap2 as [| | z2 |]; try discriminate.
    + simpl in H. apply Z.leb_le in H.
      unfold Js.gt, Js.lt, Js.sub in *.
      destruct (Z.ltb_spec 1 z1); [| exact Hnn].
      destruct (Z.ltb_spec 1 z2); [| lia].
      apply roundDouble_mono. lia.
    + unfold Js.gt, Js.lt, Js.sub.
      destruct (Z.ltb_spec 1 z1); [| reflexivity].
      apply le_PosInf. apply roundDouble_not_nan.
  - destruct gap2; try discriminate. reflexivity.
Qed.

(** The gap of a Bounds included in another is at most the gap of the
    other, unless it is too small to count. *)
Lemma gap_included (a1 a2 b1 b2 : num) :
  Js.le b1 a1 = true -> Js.le a2 b2 = true ->
  Js.gt (Js.sub a2 a1) (Fin 1) = false \/
  Js.le (Js.sub a2 a1) (Js.sub b2 b1) = true.
Proof.
  intros H1 H2.
  destruct a1, a2, b1, b2; simpl in *; try discriminate;
    first [ left; reflexivity
          | right; reflexivity
          | right; apply Z.leb_le in H1; apply Z.leb_le in H2;
            apply roundDouble_mono; lia
          | right; apply le_PosInf; apply roundDouble_not_nan ].
Qed.

Lemma size_included (a1 a2 b1 b2 : num) :
  Js.le b1 a1 = true -> Js.le a2 b2 = true ->
  Js.le (if Js.gt (Js.sub a2 a1) (Fin 1) then Js.sub (Js.sub a2 a1) (Fin 1) else Fin 0)
        (if Js.gt (Js.sub b2 b1) (Fin 1) then Js.sub (Js.sub b2 b1) (Fin 1) else Fin 0)
  = true.
Proof.
  intros H1 H2. destruct (gap_included a1 a2 b1 b2 H1 H2) as [Hsmall | Hle].
  - rewrite Hsmall. apply (gap_size_nonneg (Js.sub b2 b1)).
  - apply gap_size_mono. exact Hle.
Qed.

(** ** The interval algebra *)

Lemma subtractBounds_array (l : list value) (boundsB : value) :
  subtractBounds (VArr l) boundsB = l' <- subtractEach l boundsB ;; Ok (VArr l').
Proof.
  simpl. f_equal.
  induction l as [| b rest IH]; simpl; [reflexivity |].
  rewrite IH. reflexivity.
Qed.

Lemma subtractBounds_object (a : bounds) (boundsB : value) :
  subtractBounds (VObj a) boundsB =
    if isNull boundsB then Ok (VObj a) else
    inclAB <- boundsIncluded (VObj a) boundsB ;;
    if inclAB : bool then Ok VNull else
    inclBA <- boundsIncluded boundsB (VObj a) ;;
    if inclBA : bool then
      '(bMin, bMax) <- widths boundsB ;;
      Ok (VArr [nullBounds (mkBounds (minWidth a) bMin);
                nullBounds (mkBounds bMax (maxWidth a))])
    else
    inter <- boundsIntersects (VObj a) boundsB ;;
    if inter : bool then
      '(bMin, bMax) <- widths boundsB ;;
      if Js.lt (minWidth a) bMin
      then Ok (VObj (mkBounds (minWidth a) bMin))
      else Ok (VObj (mkBounds bMax (maxWidth a)))
    else Ok (VObj a).
Proof. reflexivity. Qed.

(** [subtract(A, Empty) == A] and [subtract(Empty, B) == Empty]. *)
Lemma subtractBounds_null_r (a : bounds) :
  subtractBounds (VObj a) VNull = Ok (VObj a).
Proof. reflexivity. Qed.

Lemma subtractBounds_null_l (boundsB : value) :
  subtractBounds VNull boundsB = Ok VNull.
Proof. reflexivity. Qed.

(** Subtracting an object from an object never throws. *)
Lemma subtractBounds_objects_total (a b : bounds) :
  exists v, subtractBounds (VObj a) (VObj b) = Ok v.
Proof.
  rewrite subtractBounds_object.
  unfold boundsIncluded, boundsIntersects, bind; simpl.
  repeat match goal with
    | |- context [if ?c then _ else _] => destruct c; simpl
    end; eexists; reflexivity.
Qed.

(** Subtraction throws only on [undefined]. *)
Lemma subtractBounds_total (boundsA boundsB : value) :
  inDomain boundsA = true -> boundsB <> VUndefined ->
  exists v, subtractBounds boundsA boundsB = Ok v.
Proof.
  intros HA HB. revert HA.
  induction boundsA as [| | a | l IH |] using value_ind_nested; intros HA.
  - discriminate.
  - eexists; reflexivity.
  - destruct boundsB as [| | b | lb |].
    + congruence.
    + eexists; reflexivity.
    + apply subtractBounds_objects_total.
    + rewrite subtractBounds_object. algebra_unfold.
      destruct a as [[] []]; simpl; eexists; reflexivity.
    + rewrite subtractBounds_object. algebra_unfold.
      destruct a as [[] []]; simpl; eexists; reflexivity.
  - rewrite subtractBounds_array.
    assert (Hl : exists l', subtractEach l boundsB = Ok l').
    { simpl in HA. induction IH as [| x rest Hx _ IHrest]; simpl.
      - eexists; reflexivity.
      - simpl in HA. apply andb_true_iff in HA as [Hx' Hrest].
        destruct (Hx Hx') as [v ->]. destruct (IHrest Hrest) as [l' ->].
        simpl. eexists; reflexivity. }
    destruct Hl as [l' ->]. simpl. eexists; reflexivity.
  - discriminate.
Qed.

(** Subtracting a numeric object from a proper object leaves [null], a
    proper object, or the two pieces of a split, each [null] or proper. *)
Lemma subtractBounds_object_proper (a b : bounds) :
  proper a = true -> numeric b = true ->
  exists v, subtractBounds (VObj a) (VObj b) = Ok v /\ properValue v = true.
Proof.
  intros Ha Hb. rewrite subtractBounds_object.
  bounds_cases. algebra_unfold.
  repeat match goal with n : num |- _ => destruct n end;
    js_unfold; simpl in *; try discriminate;
    zbool; simpl in *; try discriminate; try lia;
    eexists; (split; [reflexivity |]); simpl;
    unfold proper; js_unfold; simpl; zbool; simpl; try reflexivity; try lia.
Qed.

Lemma properEntry_spread (v : value) :
  properValue v = true -> forallb properEntry (spread v) = true.
Proof.
  destruct v; simpl; intros H; try discriminate; try rewrite H; auto.
Qed.

Lemma subtractEach_proper (l : list value) (b : bounds) :
  forallb properEntry l = true -> numeric b = true ->
  exists l', subtractEach l (VObj b) = Ok l' /\ forallb properEntry l' = true.
Proof.
  intros Hl Hb. induction l as [| x rest IH]; simpl.
  - exists []. split; reflexivity.
  - simpl in Hl. apply andb_true_iff in Hl as [Hx Hrest].
    destruct (IH Hrest) as [l' [-> Hl']].
    destruct x as [| | a | la |]; simpl in Hx; try discriminate.
    + simpl. eexists. split; [reflexivity |]. simpl. exact Hl'.
    + destruct (subtractBounds_object_proper a b Hx Hb) as [v [-> Hv]].
      simpl. eexists. split; [reflexivity |].
      rewrite forallb_app, (properEntry_spread v Hv), Hl'. reflexivity.
Qed.

Lemma subtractBounds_proper (boundsA : value) (b : bounds) :
  properValue boundsA = true -> numeric b = true ->
  exists v, subtractBounds boundsA (VObj b) = Ok v /\ properValue v = true.
Proof.
  intros HA Hb. destruct boundsA as [| | a | l |]; simpl in HA; try discriminate.
  - exists VNull. split; reflexivity.
  - apply subtractBounds_object_proper; assumption.
  - rewrite subtractBounds_array.
    destruct (subtractEach_proper l b HA Hb) as [l' [-> Hl']].
    simpl. eexists. split; [reflexivity | exact Hl'].
Qed.

(** C7, as the code has it: an Untracked value is not included in, does not
    include, and does not intersect any Bounds or Untracked value, in either
    argument position (on Empty the two tests throw instead). *)
Theorem untracked_never_matches (b : bounds) :
  boundsIncluded Untracked (VObj b) = Ok false /\
  boundsIncluded (VObj b) Untracked = Ok false /\
  boundsIntersects Untracked (VObj b) = Ok false /\
  boundsIntersects (VObj b) Untracked = Ok false.
Proof.
  bounds_cases. algebra_unfold.
  repeat split; num_cases.
Qed.

(** C7 fails as stated at V = Empty: testing Untracked against [null]
    throws in every one of the four calls instead of answering [false]. *)
Lemma untracked_against_empty_throws :
  boundsIncluded Untracked Empty = TypeError /\
  boundsIncluded Empty Untracked = TypeError /\
  boundsIntersects Untracked Empty = TypeError /\
  boundsIntersects Empty Untracked = TypeError /\
  boundsIncluded Untracked Empty <> Ok false.
Proof. repeat split; try reflexivity. discriminate. Qed.

(** C8: subtracting a well-formed, non-degenerate Bounds (numeric or
    infinite endpoints, [minWidth < maxWidth]) from itself gives Empty. *)
Theorem subtractBounds_self (a : bounds) :
  numeric a = true -> proper a = true ->
  subtractBounds (VObj a) (VObj a) = Ok Empty.
Proof.
  intros Hn Hp. rewrite subtractBounds_object.
  bounds_cases. algebra_unfold. num_cases.
Qed.

Lemma subtractBounds_self_witness :
  subtractBounds (VObj (mkBounds (Fin 768) PosInf)) (VObj (mkBounds (Fin 768) PosInf))
  = Ok Empty.
Proof. apply subtractBounds_self; reflexivity. Defined.

(** C9, as the code has it: for two Bounds or Untracked values neither of
    which has [minWidth >= maxWidth], if they do not intersect then
    subtraction returns the first unchanged. *)
Theorem subtractBounds_disjoint (a b : bounds) :
  degenerate a = false -> degenerate b = false ->
  boundsIntersects (VObj a) (VObj b) = Ok false ->
  subtractBounds (VObj a) (VObj b) = Ok (VObj a).
Proof.
  intros Ha Hb Hi. rewrite subtractBounds_object.
  bounds_cases. algebra_unfold.
  repeat match goal with n : num |- _ => destruct n end;
    js_unfold; simpl in *; try discriminate; try reflexivity;
    zbool; simpl in *; try discriminate; try reflexivity; try lia.
Qed.

Lemma subtractBounds_disjoint_witness :
  subtractBounds (VObj (mkBounds (Fin 0) (Fin 768))) (VObj (mkBounds (Fin 768) (Fin 1200)))
  = Ok (VObj (mkBounds (Fin 0) (Fin 768))).
Proof. apply subtractBounds_disjoint; reflexivity. Defined.

(** C9 fails as stated on a Bounds with equal endpoints: [{0, 0}] does not
    intersect [{0, 10}], yet it is included in it, and subtraction returns
    Empty; and [{0, 10}] minus the non-intersecting [{10, 10}] is a
    two-element list. *)
Lemma degenerate_disjoint_not_unchanged :
  boundsIntersects (VObj (mkBounds (Fin 0) (Fin 0))) (VObj (mkBounds (Fin 0) (Fin 10)))
    = Ok false /\
  subtractBounds (VObj (mkBounds (Fin 0) (Fin 0))) (VObj (mkBounds (Fin 0) (Fin 10)))
    = Ok Empty /\
  subtractBounds (VObj (mkBounds (Fin 0) (Fin 0))) (VObj (mkBounds (Fin 0) (Fin 10)))
    <> Ok (VObj (mkBounds (Fin 0) (Fin 0))) /\
  boundsIntersects (VObj (mkBounds (Fin 0) (Fin 10))) (VObj (mkBounds (Fin 10) (Fin 10)))
    = Ok false /\
  subtractBounds (VObj (mkBounds (Fin 0) (Fin 10))) (VObj (mkBounds (Fin 10) (Fin 10)))
    = Ok (VArr [VObj (mkBounds (Fin 0) (Fin 10)); VNull]).
Proof. repeat split; try reflexivity. discriminate. Qed.




(** C6, as the code has it: [subtractBounds] returns a value for every
    combination of Bounds, Empty, Untracked and lists of them;
    [boundsIncluded], [boundsIntersects] and [getBoundsSize] return a value
    on every Bounds and Untracked argument, and throw when an argument is
    Empty. *)
Theorem algebra_total :
  (forall boundsA boundsB,
      inDomain boundsA = true -> inDomain boundsB = true ->
      exists v, subtractBounds boundsA boundsB = Ok v) /\
  (forall a b, exists r, boundsIncluded (VObj a) (VObj b) = Ok r) /\
  (forall a b, exists r, boundsIntersects (VObj a) (VObj b) = Ok r) /\
  (forall a, exists s, getBoundsSize (VObj a) = Ok s) /\
  (forall v, boundsIncluded Empty v = TypeError /\
             boundsIntersects Empty v = TypeError) /\
  (forall a, boundsIncluded (VObj a) Empty = TypeError /\
             boundsIntersects (VObj a) Empty = TypeError) /\
  getBoundsSize Empty = TypeError.
Proof.
  repeat split; try reflexivity.
  - intros A B HA HB. apply subtractBounds_total; [exact HA |].
    intros ->. discriminate.
  - intros a b. eexists; reflexivity.
  - intros a b. algebra_unfold. destruct (Js.le _ _); eexists; reflexivity.
  - intros a. eexists; reflexivity.
Qed.

Lemma algebra_total_witness :
  exists v,
    subtractBounds
      (VArr [VObj (mkBounds (Fin 0) (Fin 1200)); Empty; Untracked])
      (VObj (mkBounds (Fin 600) (Fin 768))) = Ok v.
Proof. apply (proj1 algebra_total); reflexivity. Defined.

(** C6 fails as stated: the inclusion test, the intersection test and the
    size throw when given Empty. *)
Lemma algebra_throws_on_empty :
  boundsIncluded Empty (VObj (mkBounds (Fin 0) (Fin 768))) = TypeError /\
  boundsIntersects (VObj (mkBounds (Fin 0) (Fin 768))) Empty = TypeError /\
  getBoundsSize Empty = TypeError /\
  ~ (exists r, boundsIncluded Empty (VObj (mkBounds (Fin 0) (Fin 768))) = Ok r).
Proof.
  repeat split; try reflexivity.
  intros [r H]. discriminate.
Qed.

(** ** The parser *)

Lemma stripPrefix_sound (p s rest : string) :
  stripPrefix p s = Some rest -> s = (p ++ rest)%string.
Proof.
  revert s. induction p as [| c p IH]; intros s H; simpl in *.
  - congruence.
  - destruct s as [| d s]; [discriminate |].
    destruct (Ascii.eqb_spec c d) as [-> |]; [| discriminate].
    f_equal. apply IH. exact H.
Qed.

Lemma spanDigits_sound (s : string) :
  s = (fst (spanDigits s) ++ snd (spanDigits s))%string /\
  allDigits (fst (spanDigits s)) = true.
Proof.
  induction s as [| c s [IH1 IH2]]; simpl; [split; reflexivity |].
  destruct (isDigit c) eqn:Hc; simpl.
  - destruct (spanDigits s) as [ds rest]; simpl in *.
    rewrite Hc, IH2. split; [f_equal; exact IH1 | reflexivity].
  - split; reflexivity.
Qed.

(** A match at the head of the text has the shape of the pattern: the
    literal prefix, an optional sign, a non-empty run of digits, [px]. *)
Lemma matchWidthHere_sound (tok s cap : string) :
  matchWidthHere tok s = Some cap ->
  exists sign ds rest,
    cap = (sign ++ ds)%string /\
    s = (tok ++ sign ++ ds ++ "px" ++ rest)%string /\
    (sign = "" \/ sign = "+" \/ sign = "-") /\
    ds <> "" /\ allDigits ds = true.
Proof.
  unfold matchWidthHere. intros H.
  destruct (stripPrefix tok s) as [rest0 |] eqn:Htok; [| discriminate].
  apply stripPrefix_sound in Htok. subst s.
  set (split := match rest0 with
                | EmptyString => (EmptyString, rest0)
                | String c r =>
                    if isSign c then (String c EmptyString, r) else (EmptyString, rest0)
                end) in *.
  assert (Hsplit : rest0 = (fst split ++ snd split)%string /\
                   (fst split = "" \/ fst split = "+" \/ fst split = "-")).
  { subst split. destruct rest0 as [| c r]; simpl; [auto |].
    unfold isSign. destruct (Ascii.eqb_spec c "+"%char) as [-> |]; simpl; [auto |].
    destruct (Ascii.eqb_spec c "-"%char) as [-> |]; simpl; auto. }
  destruct split as [sign rest1]. simpl in Hsplit. destruct Hsplit as [Hrest0 Hsign].
  pose proof (spanDigits_sound rest1) as [Hspan Hdigits].
  destruct (spanDigits rest1) as [ds rest2]. simpl in Hspan, Hdigits.
  destruct ds as [| d ds]; [discriminate |].
  destruct (stripPrefix "px" rest2) as [rest |] eqn:Hpx; [| discriminate].
  apply stripPrefix_sound in Hpx.
  injection H as <-.
  exists sign, (String d ds), rest.
  repeat split; try assumption; try discriminate.
  rewrite Hrest0, Hspan, Hpx. reflexivity.
Qed.

(** [exec] returns a capture only where the pattern matches some suffix. *)
Lemma execWidth_sound (tok s cap : string) :
  execWidth tok s = Some cap ->
  exists before after,
    s = (before ++ after)%string /\ matchWidthHere tok after = Some cap.
Proof.
  induction s as [| c s IH]; simpl; intros H.
  - destruct (matchWidthHere tok "") eqn:Hm; [| discriminate].
    exists "", "". split; [reflexivity | congruence].
  - destruct (matchWidthHere tok (String c s)) eqn:Hm.
    + exists "", (String c s). split; [reflexivity | congruence].
    + destruct (IH H) as [before [after [-> Hafter]]].
      exists (String c before), after. split; [reflexivity | exact Hafter].
Qed.

Example numberOfCapture_plain : numberOfCapture "768" = Fin 768.
Proof. reflexivity. Qed.

Example numberOfCapture_signed :
  numberOfCapture "+007" = Fin 7 /\ numberOfCapture "-5" = Fin (-5).
Proof. split; reflexivity. Qed.

(** Above 2^53 the number read is the nearest double (a tie goes to the
    even one), and a text of 310 digits reads as an infinity. *)
Example numberOfCapture_rounded :
  numberOfCapture "9007199254740993" = Fin 9007199254740992 /\
  numberOfCapture "144115188075855809" = Fin 144115188075855808 /\
  numberOfCapture "-1000000000000000000000000000000000000000000000000000000000000000000000000000000000000000000000000000000000000000000000000000000000000000000000000000000000000000000000000000000000000000000000000000000000000000000000000000000000000000000000000000000000000000000000000000000000000000000000000000000000000000000000000000"
  = NegInf.
Proof. repeat split; vm_compute; reflexivity. Qed.

Lemma boundsOfWidths_spec (capMin capMax : option string) :
  boundsOfWidths (toNumber capMin) (toNumber capMax)
  = parseSpec (extracted capMin) (extracted capMax).
Proof.
  unfold boundsOfWidths, parseSpec, extracted, toNumber, isPositive, rawWidth.
  destruct capMin as [cmin |], capMax as [cmax |]; reflexivity.
Qed.

(** C2: the parser returns, when either extracted value is a number greater
    than zero, the Bounds with each extracted value kept if it is a
    non-negative number and replaced by the matching infinity otherwise; in
    every other case the extracted pair as it is, which is Untracked when
    neither side matched; so a text that normalizes to [screen] parses to
    Untracked. *)
Theorem getQueryBounds_spec (normalize : string -> string) (query : string) :
  getQueryBounds normalize query
    = parseSpec (extracted (minWidthRegExp (normalize query)))
                (extracted (maxWidthRegExp (normalize query))) /\
  (minWidthRegExp (normalize query) = None ->
   maxWidthRegExp (normalize query) = None ->
   VObj (getQueryBounds normalize query) = Untracked) /\
  (normalize "screen" = "screen" ->
   VObj (getQueryBounds normalize "screen") = Untracked).
Proof.
  unfold getQueryBounds. cbv zeta. split; [apply boundsOfWidths_spec |]. split.
  - intros -> ->. reflexivity.
  - intros ->. reflexivity.
Qed.

Lemma getQueryBounds_spec_witness :
  VObj (getQueryBounds removeSpaces "screen") = Untracked.
Proof.
  apply (proj2 (proj2 (getQueryBounds_spec removeSpaces "screen"))).
  reflexivity.
Defined.

Example getQueryBounds_both :
  getQueryBounds removeSpaces "(min-width: 768px) and (max-width: 1024px)"
  = mkBounds (Fin 768) (Fin 1024).
Proof. reflexivity. Qed.

Example getQueryBounds_max_only :
  getQueryBounds removeSpaces "(max-width: 600px)" = mkBounds NegInf (Fin 600).
Proof. reflexivity. Qed.

(** C5, as the code has it: subtracting a numeric Bounds from a value whose
    Bounds all have [minWidth < maxWidth] gives a value whose Bounds all have
    [minWidth < maxWidth], and a piece of a split with equal endpoints
    becomes Empty.  The parser does not order or normalize the pair it
    extracts. *)
Theorem construction_invariant :
  (forall boundsA b,
      properValue boundsA = true -> numeric b = true ->
      exists v, subtractBounds boundsA (VObj b) = Ok v /\ properValue v = true) /\
  (forall b, Js.eq (minWidth b) (maxWidth b) = true -> nullBounds b = Empty).
Proof.
  split.
  - intros A b HA Hb. apply subtractBounds_proper; assumption.
  - intros b H. unfold nullBounds. rewrite H. reflexivity.
Qed.

Lemma construction_invariant_witness :
  exists v,
    subtractBounds (VArr [VObj (mkBounds (Fin 0) (Fin 1200))])
                   (VObj (mkBounds (Fin 0) (Fin 768))) = Ok v /\
    properValue v = true.
Proof. apply (proj1 construction_invariant); reflexivity. Defined.

(** C5 fails as stated on the parser: a condition written with a minimum
    above its maximum parses to a Bounds with [minWidth > maxWidth], and one
    written with two zero widths parses to a Bounds with equal endpoints,
    not to Empty. *)
Lemma getQueryBounds_not_ordered :
  getQueryBounds removeSpaces "(min-width: 1000px) and (max-width: 500px)"
    = mkBounds (Fin 1000) (Fin 500) /\
  boundsOfWidths (toNumber (Some "1000")) (toNumber (Some "500"))
    = mkBounds (Fin 1000) (Fin 500) /\
  Js.le (Fin 1000) (Fin 500) = false /\
  getQueryBounds removeSpaces "(min-width: 0px) and (max-width: 0px)"
    = mkBounds (Fin 0) (Fin 0) /\
  VObj (mkBounds (Fin 0) (Fin 0)) <> Empty.
Proof. repeat split; try reflexivity. discriminate. Qed.

(** ** The candidates and the reducer *)

Lemma lookup_computed {V : Type} (f : string -> V) (ks : list string) (q : string) :
  In q ks -> lookup (map (fun k => (k, f k)) ks) q = Some (f q).
Proof.
  induction ks as [| k ks IH]; simpl; [contradiction |].
  intros Hin. destruct (String.eqb_spec k q) as [-> | Hne]; [reflexivity |].
  destruct Hin as [-> | Hin]; [contradiction | auto].
Qed.

Lemma filterR_pure {A : Type} (p : A -> result bool) (f : A -> bool) (l : list A) :
  (forall x, In x l -> p x = Ok (f x)) -> filterR p l = Ok (filter f l).
Proof.
  induction l as [| x l IH]; simpl; intros H; [reflexivity |].
  rewrite (H x (or_introl eq_refl)). simpl.
  rewrite IH by (intros y Hy; apply H; right; exact Hy). simpl.
  destruct (f x); reflexivity.
Qed.

Lemma subtractBounds_entries (a b : bounds) (v : value) :
  subtractBounds (VObj a) (VObj b) = Ok v -> forallb isEntry (spread v) = true.
Proof.
  rewrite subtractBounds_object. algebra_unfold.
  repeat match goal with
    | |- context [if ?c then _ else _] => destruct c; simpl
    end; intros H; injection H as <-; reflexivity.
Qed.

Lemma subtractEach_entries (l : list value) (b : bounds) :
  forallb isEntry l = true ->
  exists l', subtractEach l (VObj b) = Ok l' /\ forallb isEntry l' = true.
Proof.
  intros Hl. induction l as [| x rest IH]; simpl.
  - exists []. split; reflexivity.
  - simpl in Hl. apply andb_true_iff in Hl as [Hx Hrest].
    destruct (IH Hrest) as [l' [-> Hl']].
    destruct x as [| | a | la |]; simpl in Hx; try discriminate.
    + simpl. eexists. split; [reflexivity | exact Hl'].
    + destruct (subtractBounds_objects_total a b) as [v Hv].
      rewrite Hv. simpl. eexists. split; [reflexivity |].
      rewrite forallb_app, (subtractBounds_entries a b v Hv), Hl'. reflexivity.
Qed.

Lemma flat_entries (l : list value) :
  forallb isEntry l = true -> flat_map spread l = l.
Proof.
  induction l as [| x l IH]; simpl; [reflexivity |].
  intros H. apply andb_true_iff in H as [Hx Hl].
  rewrite (IH Hl). destruct x; simpl in *; try discriminate; reflexivity.
Qed.

Lemma sizes_total (l : list value) (acc : num) :
  forallb isEntry l = true ->
  exists size,
    reduceR (fun size b => s <- getBoundsSize b ;; Ok (Js.add size s))
            (filter truthy l) acc = Ok size.
Proof.
  revert acc. induction l as [| x l IH]; simpl; intros acc H.
  - eexists; reflexivity.
  - apply andb_true_iff in H as [Hx Hl].
    destruct x; simpl in *; try discriminate; auto.
Qed.

Lemma remainderSize_entries (l : list value) :
  forallb isEntry l = true -> exists size, remainderSize (VArr l) = Ok size.
Proof.
  intros H. unfold remainderSize. simpl.
  rewrite (flat_entries l H). apply sizes_total. exact H.
Qed.

Lemma afterEntries_nil (w : world) : afterEntries w [] = w.
Proof.
  destruct w as [st att]. unfold afterEntries. simpl.
  rewrite app_nil_r, andb_true_r. reflexivity.
Qed.

Lemma afterEntries_cons (w : world) (m : media) (entries : list media) :
  afterEntries (mkWorld (stored w ++ [m]) false) entries
  = afterEntries w (m :: entries).
Proof.
  unfold afterEntries. simpl. rewrite <- app_assoc, andb_false_r. reflexivity.
Qed.

Lemma reduceM_app {A B : Type} (f : A -> B -> M A) (g : A -> B -> result A)
    (e : B -> media) (l : list B) :
  (forall a x w, f a x w = (mkWorld (stored w ++ [e x]) false, g a x)) ->
  forall init w r,
    reduceR g l init = Ok r ->
    reduceM f l init w = (afterEntries w (map e l), Ok r).
Proof.
  intros Hstep. induction l as [| x l IH]; intros init w r H; simpl in *.
  - unfold ret. rewrite afterEntries_nil, H. reflexivity.
  - unfold bindM. rewrite Hstep.
    destruct (g init x) as [a |]; simpl in *; [| discriminate].
    rewrite (IH a _ r H), afterEntries_cons. reflexivity.
Qed.


Section PluginProofs.

Variable normalize : string -> string.
Variable opts : options.

Lemma queriesBoundsAt_key (q : string) :
  In q (keys (queries opts)) ->
  queriesBoundsAt normalize opts q = VObj (getQueryBounds normalize q).
Proof.
  intros Hq. unfold queriesBoundsAt, queriesBounds.
  rewrite (lookup_computed (getQueryBounds normalize) _ q Hq). reflexivity.
Qed.

Lemma getQueryNamesByBounds_object (b : bounds) :
  getQueryNamesByBounds normalize opts (VObj b)
  = Ok (map (candidateOf opts)
            (filter (fun q => overlap b (getQueryBounds normalize q))
                    (keys (queries opts)))).
Proof.
  unfold getQueryNamesByBounds.
  rewrite (filterR_pure _ (fun q => overlap b (getQueryBounds normalize q))).
  - reflexivity.
  - intros q Hq. rewrite (queriesBoundsAt_key q Hq).
    unfold boundsIntersects, overlap, bind, widths.
    destruct (Js.le _ _); reflexivity.
Qed.

Lemma queryNames_eq (rule : atRule) :
  queryNames normalize opts rule
  = Ok (candidatesByBounds normalize opts rule ++ candidatesByAlias normalize opts rule).
Proof.
  unfold queryNames. cbv zeta. rewrite getQueryNamesByBounds_object. reflexivity.
Qed.

Lemma fromTable_filter (p : string -> bool) :
  fromTable opts (map (candidateOf opts) (filter p (keys (queries opts)))).
Proof.
  unfold fromTable. rewrite Forall_map. apply Forall_forall.
  intros q Hq. apply filter_In in Hq as [Hq _]. exact Hq.
Qed.

Lemma queryNames_fromTable (rule : atRule) :
  fromTable opts (candidatesByBounds normalize opts rule ++ candidatesByAlias normalize opts rule).
Proof. apply Forall_app. split; apply fromTable_filter. Qed.

Lemma remainder_entries (names : list candidate) :
  fromTable opts names ->
  forall l, forallb isEntry l = true ->
  exists l', reduceR (subtractCandidate normalize opts) names (VArr l) = Ok (VArr l')
             /\ forallb isEntry l' = true.
Proof.
  induction 1 as [| c names Hc _ IH]; simpl; intros l Hl.
  - exists l. split; [reflexivity | exact Hl].
  - unfold subtractCandidate at 1.
    rewrite (queriesBoundsAt_key _ Hc), subtractBounds_array.
    destruct (subtractEach_entries l (getQueryBounds normalize (snd c)) Hl)
      as [l1 [-> Hl1]].
    simpl. apply IH. exact Hl1.
Qed.

Lemma residual_total (rule : atRule) (names : list candidate) :
  fromTable opts names -> exists size, residual normalize opts rule names = Ok size.
Proof.
  intros Hn. unfold residual, remainderOf.
  destruct (remainder_entries names Hn [VObj (getQueryBounds normalize (params rule))]
              eq_refl) as [l' [-> Hl']].
  simpl. apply remainderSize_entries. exact Hl'.
Qed.

Lemma copyAndSubtract_eq (rule : atRule) (remainder : value) (c : candidate) (w : world) :
  copyAndSubtract normalize opts rule remainder c w
  = (mkWorld (stored w ++ [emission opts rule c]) false,
     subtractCandidate normalize opts remainder c).
Proof. destruct c as [queryName query]. reflexivity. Qed.

Lemma boundsRemainderSize_eq (rule : atRule) (names : list candidate) (w : world)
    (size : num) :
  residual normalize opts rule names = Ok size ->
  boundsRemainderSize normalize opts rule names w
  = (afterEntries w (map (emission opts rule) names), Ok size).
Proof.
  unfold residual, remainderOf, boundsRemainderSize. cbv zeta. intros H.
  destruct (reduceR _ names _) as [remainder |] eqn:Hr; [| discriminate].
  unfold bindM.
  rewrite (reduceM_app _ (subtractCandidate normalize opts) (emission opts rule) names
             (copyAndSubtract_eq rule) _ w remainder Hr).
  unfold lift. simpl in H. rewrite H. reflexivity.
Qed.

Lemma processAtRule_eq (rule : atRule) (names : list candidate) (size : num) (w : world) :
  queryNames normalize opts rule = Ok names ->
  residual normalize opts rule names = Ok size ->
  processAtRule normalize opts rule w
  = (afterEntries w (map (emission opts rule) names),
     Ok (negb (Nat.eqb (List.length names) 0) && Js.eq size (Fin 0))).
Proof.
  intros Hnames Hsize. unfold processAtRule, bindM, lift, ret.
  rewrite Hnames, (boundsRemainderSize_eq rule names w size Hsize).
  destruct names as [| c names]; [reflexivity |].
  cbn [List.length Nat.eqb negb andb].
  replace (0 <? Z.of_nat (S (List.length names))) with true
    by (symmetry; apply Z.ltb_lt; lia).
  cbn [andb]. destruct (Js.eq size (Fin 0)); [| reflexivity].
  unfold detach, afterEntries. simpl. rewrite andb_false_r. reflexivity.
Qed.

End PluginProofs.

Lemma eq_zero_iff (size : num) : Js.eq size (Fin 0) = true <-> size = Fin 0.
Proof.
  destruct size; simpl; split; intros H; try discriminate; try reflexivity.
  - apply Z.eqb_eq in H. congruence.
  - injection H as ->. reflexivity.
Qed.



Lemma overlap_untracked (b : bounds) : overlap untracked b = false.
Proof. reflexivity. Qed.

Lemma subtractBounds_untracked_object (b : bounds) :
  subtractBounds Untracked (VObj b) = Ok Untracked.
Proof.
  unfold Untracked. rewrite subtractBounds_object.
  bounds_cases. algebra_unfold. num_cases.
Qed.

Lemma subtractBounds_untracked (b : bounds) :
  subtractBounds (VArr [Untracked]) (VObj b) = Ok (VArr [Untracked]).
Proof.
  rewrite subtractBounds_array. cbn [subtractEach].
  rewrite subtractBounds_untracked_object. reflexivity.
Qed.

Lemma filter_none {A : Type} (p : A -> bool) (l : list A) :
  (forall x, p x = false) -> filter p l = [].
Proof.
  intros H. induction l as [| x l IH]; simpl; [reflexivity |].
  rewrite H. exact IH.
Qed.

Lemma remainderOf_untracked (normalize : string -> string) (opts : options)
    (names : list candidate) :
  fromTable opts names ->
  reduceR (subtractCandidate normalize opts) names (VArr [Untracked])
  = Ok (VArr [Untracked]).
Proof.
  induction 1 as [| c names Hc _ IH]; simpl; [reflexivity |].
  unfold subtractCandidate at 1.
  rewrite (queriesBoundsAt_key normalize opts _ Hc), subtractBounds_untracked.
  simpl. exact IH.
Qed.

(** ** The removal decision *)

(** C1: the code departs from the claim.  With the single breakpoint
    [small = [0, 600)] and a rule on [[0, 1200)], the rule has one candidate
    and the residual size is 599, so the test of line 206 fails and the
    callback does not call [atRule.remove()]; yet storing the rule under its
    candidate has moved it out of its source tree, and the walk leaves no
    rule in the file. *)
Theorem rule_with_residual_leaves_source :
  queryNames removeSpaces
    (mkOptions [("(min-width: 0px) and (max-width: 600px)", "small")] [] "header" "out")
    (mkAtRule "(min-width: 0px) and (max-width: 1200px)" "@media{}")
  = Ok [(Some "small", "(min-width: 0px) and (max-width: 600px)")] /\
  residual removeSpaces
    (mkOptions [("(min-width: 0px) and (max-width: 600px)", "small")] [] "header" "out")
    (mkAtRule "(min-width: 0px) and (max-width: 1200px)" "@media{}")
    [(Some "small", "(min-width: 0px) and (max-width: 600px)")]
  = Ok (Fin 599) /\
  processAtRule removeSpaces
    (mkOptions [("(min-width: 0px) and (max-width: 600px)", "small")] [] "header" "out")
    (mkAtRule "(min-width: 0px) and (max-width: 1200px)" "@media{}")
    (mkWorld [] true)
  = (mkWorld
       [mkMedia "header-small" "@media{}" "out" "(min-width: 0px) and (max-width: 1200px)"]
       false,
     Ok false) /\
  walkAtRules removeSpaces
    (mkOptions [("(min-width: 0px) and (max-width: 600px)", "small")] [] "header" "out")
    [mkAtRule "(min-width: 0px) and (max-width: 1200px)" "@media{}"] []
  = ([mkMedia "header-small" "@media{}" "out" "(min-width: 0px) and (max-width: 1200px)"],
     Ok []).
Proof. repeat split; vm_compute; reflexivity. Qed.



(** C10: when the bounds of a rule are Untracked, subtracting the bounds of
    any breakpoint leaves the remainder as it was and its size is 0; no
    breakpoint is a candidate by intersection, so every candidate is one by
    alias; the residual size is 0; and the rule is removed as soon as it has
    one candidate: [atRule.remove()] is called, and the rule is no longer in
    its source tree. *)
Theorem untracked_rule_removed (normalize : string -> string) (opts : options)
    (rule : atRule) (w : world) :
  getQueryBounds normalize (params rule) = untracked ->
  (forall b, subtractBounds (VArr [Untracked]) (VObj b) = Ok (VArr [Untracked])) /\
  getBoundsSize Untracked = Ok (Fin 0) /\
  candidatesByBounds normalize opts rule = [] /\
  queryNames normalize opts rule = Ok (candidatesByAlias normalize opts rule) /\
  residual normalize opts rule (candidatesByAlias normalize opts rule) = Ok (Fin 0) /\
  processAtRule normalize opts rule w
  = (afterEntries w (map (emission opts rule) (candidatesByAlias normalize opts rule)),
     Ok (negb (Nat.eqb (List.length (candidatesByAlias normalize opts rule)) 0))).
Proof.
  intros Hu.
  assert (Hnone : candidatesByBounds normalize opts rule = []).
  { unfold candidatesByBounds. rewrite Hu, filter_none; [reflexivity |].
    intros q. apply overlap_untracked. }
  assert (Hnames : queryNames normalize opts rule
                   = Ok (candidatesByAlias normalize opts rule)).
  { rewrite queryNames_eq, Hnone. reflexivity. }
  assert (Hres : residual normalize opts rule (candidatesByAlias normalize opts rule)
                 = Ok (Fin 0)).
  { unfold residual, remainderOf. rewrite Hu.
    change (VObj untracked) with Untracked.
    rewrite remainderOf_untracked; [reflexivity |].
    apply fromTable_filter. }
  split; [apply subtractBounds_untracked |]. split; [reflexivity |].
  split; [exact Hnone |]. split; [exact Hnames |]. split; [exact Hres |].
  rewrite (processAtRule_eq normalize opts rule _ _ w Hnames Hres).
  simpl. rewrite andb_true_r. reflexivity.
Qed.

Lemma untracked_rule_removed_witness :
  processAtRule removeSpaces
    (mkOptions [("screen", "screen"); ("(max-width: 768px)", "small")] [] "header" "out")
    (mkAtRule "screen" "@media screen {}") (mkWorld [] true)
  = (mkWorld [mkMedia "header-screen" "@media screen {}" "out" "screen"] false, Ok true).
Proof.
  apply (proj2 (proj2 (proj2 (proj2 (proj2
           (untracked_rule_removed removeSpaces
              (mkOptions [("screen", "screen"); ("(max-width: 768px)", "small")]
                         [] "header" "out")
              (mkAtRule "screen" "@media screen {}") (mkWorld [] true) eq_refl)))))).
Defined.

(** ** The coverage examples of the specification *)

(** Breakpoints [small = [0,768)] and [large = [768,1200)], a rule on
    [[0,1200)]: two entries are stored, nothing is left, the rule goes. *)
Example coverage_complete :
  processAtRule removeSpaces
    (mkOptions [("(min-width: 0px) and (max-width: 768px)", "small");
                ("(min-width: 768px) and (max-width: 1200px)", "large")]
               [("layout", GArray ["header"; "footer"])] "header" "out")
    (mkAtRule "(min-width: 0px) and (max-width: 1200px)" "@media{}") (mkWorld [] true)
  = (mkWorld
       [mkMedia "layout-small" "@media{}" "out" "(min-width: 0px) and (max-width: 1200px)";
        mkMedia "layout-large" "@media{}" "out" "(min-width: 0px) and (max-width: 1200px)"]
       false,
     Ok true).
Proof. vm_compute. reflexivity. Qed.

(** Breakpoint [small = [0,600)] alone: the residual is the size of
    [[600,1200)] and [atRule.remove()] is not called. *)
Example coverage_partial :
  residual removeSpaces
    (mkOptions [("(min-width: 0px) and (max-width: 600px)", "small")] [] "header" "out")
    (mkAtRule "(min-width: 0px) and (max-width: 1200px)" "@media{}")
    [(Some "small", "(min-width: 0px) and (max-width: 600px)")]
  = getBoundsSize (VObj (mkBounds (Fin 600) (Fin 1200))) /\
  processAtRule removeSpaces
    (mkOptions [("(min-width: 0px) and (max-width: 600px)", "small")] [] "header" "out")
    (mkAtRule "(min-width: 0px) and (max-width: 1200px)" "@media{}") (mkWorld [] true)
  = (mkWorld
       [mkMedia "header-small" "@media{}" "out" "(min-width: 0px) and (max-width: 1200px)"]
       false,
     Ok false).
Proof. split; vm_compute; reflexivity. Qed.

(** A breakpoint whose text is that of the rule matches both ways: it is
    stored twice. *)
Example coverage_alias_twice :
  processAtRule removeSpaces
    (mkOptions [("(max-width: 768px)", "small")] [] "header" "out")
    (mkAtRule "(max-width:768px)" "@media{}") (mkWorld [] true)
  = (mkWorld
       [mkMedia "header-small" "@media{}" "out" "(max-width:768px)";
        mkMedia "header-small" "@media{}" "out" "(max-width:768px)"]
       false,
     Ok true).
Proof. vm_compute. reflexivity. Qed.

(** The leftmost position that matches gives the capture; a sign without
    digits, or digits without [px], do not match. *)
Example execWidth_leftmost :
  minWidthRegExp "min-width:+px,min-width:12em,min-width:-33px,min-width:7px" = Some "-33" /\
  maxWidthRegExp "min-width:10px" = None.
Proof. split; reflexivity. Qed.

(** ** Further properties of the interval algebra *)

Lemma le_trans (x y z : num) :
  Js.le x y = true -> Js.le y z = true -> Js.le x z = true.
Proof. intros Hxy Hyz. num_cases. Qed.

(** X1: two Bounds that include each other have the same endpoints. *)
Theorem boundsIncluded_antisym (a b : bounds) :
  boundsIncluded (VObj a) (VObj b) = Ok true ->
  boundsIncluded (VObj b) (VObj a) = Ok true ->
  a = b.
Proof.
  intros Hab Hba. bounds_cases. algebra_unfold.
  injection Hab as Hab. injection Hba as Hba.
  apply andb_true_iff in Hab as [H1 H2]. apply andb_true_iff in Hba as [H3 H4].
  num_cases.
Qed.

Lemma boundsIncluded_antisym_witness :
  mkBounds (Fin 0) (Fin 768) = mkBounds (Fin 0) (Fin 768).
Proof.
  apply (boundsIncluded_antisym (mkBounds (Fin 0) (Fin 768)) (mkBounds (Fin 0) (Fin 768)));
    reflexivity.
Defined.

(** X2: inclusion is transitive. *)
Theorem boundsIncluded_trans (a b c : bounds) :
  boundsIncluded (VObj a) (VObj b) = Ok true ->
  boundsIncluded (VObj b) (VObj c) = Ok true ->
  boundsIncluded (VObj a) (VObj c) = Ok true.
Proof.
  intros Hab Hbc. algebra_unfold.
  injection Hab as Hab. injection Hbc as Hbc.
  apply andb_true_iff in Hab as [H1 H2]. apply andb_true_iff in Hbc as [H3 H4].
  unfold Js.ge in *.
  rewrite (le_trans _ _ _ H3 H1), (le_trans _ _ _ H2 H4). reflexivity.
Qed.

Lemma boundsIncluded_trans_witness :
  boundsIncluded (VObj (mkBounds (Fin 100) (Fin 200))) (VObj (mkBounds NegInf PosInf))
  = Ok true.
Proof.
  apply (boundsIncluded_trans _ (mkBounds (Fin 0) (Fin 768))); reflexivity.
Defined.

(** X3: on two Bounds with [minWidth < maxWidth] the intersection test does
    not depend on the order of its arguments. *)
Theorem boundsIntersects_sym (a b : bounds) :
  proper a = true -> proper b = true ->
  boundsIntersects (VObj a) (VObj b) = boundsIntersects (VObj b) (VObj a).
Proof.
  intros Ha Hb. bounds_cases. algebra_unfold. num_cases.
Qed.

Lemma boundsIntersects_sym_witness :
  boundsIntersects (VObj (mkBounds (Fin 0) (Fin 768))) (VObj (mkBounds (Fin 600) PosInf))
  = boundsIntersects (VObj (mkBounds (Fin 600) PosInf)) (VObj (mkBounds (Fin 0) (Fin 768))).
Proof. apply boundsIntersects_sym; reflexivity. Defined.

Lemma overlap_commonPoint (a b : bounds) :
  proper a = true -> proper b = true -> overlap a b = true ->
  contains a (commonPoint a b) = true /\ contains b (commonPoint a b) = true.
Proof.
  intros Ha Hb Ho. bounds_cases.
  unfold overlap, contains, commonPoint in *; simpl in *.
  repeat match goal with n : num |- _ => destruct n end;
    js_unfold; simpl in *; try discriminate;
    zbool; simpl in *; try discriminate; try lia;
    split; apply andb_true_iff; split;
    try reflexivity; try (apply Z.leb_le; lia); try (apply Z.ltb_lt; lia).
Qed.

Lemma contains_overlap (a b : bounds) (x : Z) :
  contains a x = true -> contains b x = true -> overlap a b = true.
Proof.
  unfold contains, overlap. intros Ha Hb.
  apply andb_true_iff in Ha as [H1 H2]. apply andb_true_iff in Hb as [H3 H4].
  bounds_cases. num_cases.
Qed.

Lemma boundsIntersects_overlap (a b : bounds) :
  boundsIntersects (VObj a) (VObj b) = Ok (overlap a b).
Proof.
  unfold boundsIntersects, overlap, bind, widths.
  destruct (Js.le _ _); reflexivity.
Qed.

(** X4: two Bounds with [minWidth < maxWidth] intersect exactly when some
    pixel position lies in both half-open intervals; sharing a boundary is
    not enough. *)
Theorem boundsIntersects_common_position (a b : bounds) :
  proper a = true -> proper b = true ->
  (boundsIntersects (VObj a) (VObj b) = Ok true <->
   exists x, contains a x = true /\ contains b x = true).
Proof.
  intros Ha Hb. rewrite boundsIntersects_overlap. split.
  - intros H. injection H as H. exists (commonPoint a b).
    apply overlap_commonPoint; assumption.
  - intros [x [Hxa Hxb]]. f_equal. apply (contains_overlap a b x); assumption.
Qed.

Lemma boundsIntersects_common_position_witness :
  boundsIntersects (VObj (mkBounds (Fin 0) (Fin 768))) (VObj (mkBounds (Fin 600) (Fin 1200)))
    = Ok true <->
  exists x, contains (mkBounds (Fin 0) (Fin 768)) x = true /\
            contains (mkBounds (Fin 600) (Fin 1200)) x = true.
Proof. apply boundsIntersects_common_position; reflexivity. Defined.

(** X5: a Bounds included in another is not larger than it. *)
Theorem getBoundsSize_monotone (a b : bounds) :
  boundsIncluded (VObj a) (VObj b) = Ok true ->
  exists sa sb,
    getBoundsSize (VObj a) = Ok sa /\ getBoundsSize (VObj b) = Ok sb /\
    Js.le sa sb = true.
Proof.
  intros H. unfold boundsIncluded, bind, widths in H. injection H as H.
  apply andb_true_iff in H as [H1 H2]. unfold Js.ge in H1.
  eexists _, _. split; [reflexivity |]. split; [reflexivity |].
  apply size_included; assumption.
Qed.

Lemma getBoundsSize_monotone_witness :
  exists sa sb,
    getBoundsSize (VObj (mkBounds (Fin 100) (Fin 200))) = Ok sa /\
    getBoundsSize (VObj (mkBounds (Fin 0) PosInf)) = Ok sb /\
    Js.le sa sb = true.
Proof. apply getBoundsSize_monotone; reflexivity. Defined.

Lemma size_zero_one_pixel (p : bounds) :
  proper p = true ->
  exists s, getBoundsSize (VObj p) = Ok s /\ Js.ge s (Fin 0) = true /\
            (s = Fin 0 <-> onePixelEntry (VObj p) = true).
Proof.
  intros Hp. destruct p as [lo hi]. unfold proper in Hp. simpl in Hp.
  exists (if Js.gt (Js.sub hi lo) (Fin 1) then Js.sub (Js.sub hi lo) (Fin 1) else Fin 0).
  split; [reflexivity |]. split; [apply gap_size_nonneg |].
  destruct lo as [| | l |], hi as [| | h |]; simpl in Hp; try discriminate;
    try (simpl; split; intros H; discriminate H).
  apply Z.ltb_lt in Hp. cbn [Js.sub onePixelEntry].
  destruct (Z.eqb_spec h (l + 1)) as [-> | Hne].
  - replace (l + 1 - l) with 1 by lia. rewrite (roundDouble_exact 1) by reflexivity.
    simpl. tauto.
  - pose proof (roundDouble_ge 2 (h - l) eq_refl ltac:(lia)) as Hg.
    destruct (roundDouble (h - l)) as [| | g |]; simpl in Hg; try discriminate.
    + apply Z.leb_le in Hg. unfold Js.gt, Js.lt.
      destruct (Z.ltb_spec 1 g); [| lia]. cbn [Js.sub].
      pose proof (roundDouble_ge 1 (g - 1) eq_refl ltac:(lia)) as Hs.
      split; [| discriminate]. intros Hz. rewrite Hz in Hs. discriminate.
    + simpl. split; discriminate.
Qed.

(** X6: a Bounds with [minWidth < maxWidth] has size 0 exactly when it is
    one pixel wide, and an infinite endpoint gives an infinite size. *)
Theorem getBoundsSize_zero_one_pixel (b : bounds) :
  proper b = true ->
  (getBoundsSize (VObj b) = Ok (Fin 0) <-> onePixelEntry (VObj b) = true) /\
  (minWidth b = NegInf \/ maxWidth b = PosInf ->
   getBoundsSize (VObj b) = Ok PosInf).
Proof.
  intros Hb. split.
  - destruct (size_zero_one_pixel b Hb) as [s [Hs [_ Hiff]]].
    rewrite Hs, <- Hiff. split; [intros H; injection H as H; exact H | intros ->; reflexivity].
  - destruct b as [lo hi]. unfold proper in Hb. simpl in *.
    intros [-> | ->].
    + destruct hi; simpl in Hb; try discriminate; reflexivity.
    + destruct lo; simpl in Hb; try discriminate; reflexivity.
Qed.

Lemma getBoundsSize_zero_one_pixel_witness :
  getBoundsSize (VObj (mkBounds (Fin 768) (Fin 769))) = Ok (Fin 0) <->
  onePixelEntry (VObj (mkBounds (Fin 768) (Fin 769))) = true.
Proof.
  apply (proj1 (getBoundsSize_zero_one_pixel (mkBounds (Fin 768) (Fin 769)) eq_refl)).
Defined.

(** ** Subtraction as a set difference *)

Lemma subtractBounds_object_difference (a b : bounds) :
  proper a = true -> proper b = true ->
  exists v,
    subtractBounds (VObj a) (VObj b) = Ok v /\
    forall x, covers v x = contains a x && negb (contains b x).
Proof.
  intros Ha Hb. rewrite subtractBounds_object.
  bounds_cases. algebra_unfold.
  object_cases;
    (eexists; split; [reflexivity |]; intros x; simpl;
     unfold contains; simpl; js_unfold; simpl; zbool; simpl;
     try reflexivity; exfalso; lia).
Qed.

Lemma covers_spread (v : value) (x : Z) :
  covers v x = existsb (fun e => covers e x) (spread v).
Proof.
  destruct v; simpl; try reflexivity. rewrite orb_false_r. reflexivity.
Qed.

Lemma subtractEach_difference (l : list value) (b : bounds) :
  forallb properEntry l = true -> proper b = true ->
  exists l',
    subtractEach l (VObj b) = Ok l' /\
    forall x, existsb (fun e => covers e x) l'
              = existsb (fun e => covers e x) l && negb (contains b x).
Proof.
  intros Hl Hb. induction l as [| e rest IH]; simpl.
  - exists []. split; reflexivity.
  - simpl in Hl. apply andb_true_iff in Hl as [He Hrest].
    destruct (IH Hrest) as [l' [-> Hl']].
    destruct e as [| | a | la |]; simpl in He; try discriminate.
    + simpl. eexists. split; [reflexivity |]. intros x. simpl. apply Hl'.
    + destruct (subtractBounds_object_difference a b He Hb) as [v [-> Hv]].
      simpl. eexists. split; [reflexivity |]. intros x.
      rewrite existsb_app, <- covers_spread, Hv, Hl'.
      destruct (contains a x), (contains b x), (existsb _ rest); reflexivity.
Qed.

Lemma subtractBounds_difference_proper (boundsA : value) (b : bounds) :
  properValue boundsA = true -> proper b = true ->
  exists v,
    subtractBounds boundsA (VObj b) = Ok v /\
    properValue v = true /\
    forall x, covers v x = covers boundsA x && negb (contains b x).
Proof.
  intros HA Hb.
  assert (Hn : numeric b = true).
  { bounds_cases. num_cases. }
  destruct (subtractBounds_proper boundsA b HA Hn) as [v [Hv Hp]].
  exists v. split; [exact Hv |]. split; [exact Hp |].
  destruct boundsA as [| | a | l |]; simpl in HA; try discriminate.
  - simpl in Hv. injection Hv as <-. reflexivity.
  - destruct (subtractBounds_object_difference a b HA Hb) as [v' [Hv' Hx]].
    rewrite Hv in Hv'. injection Hv' as <-. exact Hx.
  - rewrite subtractBounds_array in Hv.
    destruct (subtractEach_difference l b HA Hb) as [l' [Hl' Hx]].
    rewrite Hl' in Hv. simpl in Hv. injection Hv as <-. exact Hx.
Qed.

(** X7: subtraction is the set difference of pixel positions: for a value
    whose Bounds all have [minWidth < maxWidth] and such a Bounds B, the
    positions of [subtract(A, B)] are those of A that are not in B, and its
    Bounds again have [minWidth < maxWidth]. *)
Theorem subtractBounds_set_difference (boundsA : value) (b : bounds) :
  properValue boundsA = true -> proper b = true ->
  exists v,
    subtractBounds boundsA (VObj b) = Ok v /\
    properValue v = true /\
    forall x, covers v x = covers boundsA x && negb (contains b x).
Proof. apply subtractBounds_difference_proper. Qed.

Lemma subtractBounds_set_difference_witness :
  exists v,
    subtractBounds (VArr [VObj (mkBounds (Fin 0) (Fin 1200)); VNull])
                   (VObj (mkBounds (Fin 600) (Fin 768))) = Ok v /\
    properValue v = true /\
    forall x, covers v x
              = covers (VArr [VObj (mkBounds (Fin 0) (Fin 1200)); VNull]) x
                && negb (contains (mkBounds (Fin 600) (Fin 768)) x).
Proof. apply subtractBounds_set_difference; reflexivity. Defined.

(** ** Subtracting the same breakpoint again *)

Lemma subtractBounds_unchanged (a b : bounds) :
  proper a = true -> proper b = true -> overlap a b = false ->
  subtractBounds (VObj a) (VObj b) = Ok (VObj a).
Proof.
  intros Ha Hb Ho. rewrite subtractBounds_object.
  bounds_cases. unfold overlap in Ho. algebra_unfold.
  repeat match goal with n : num |- _ => destruct n end;
    js_unfold; simpl in *; try discriminate; try reflexivity;
    zbool; simpl in *; try discriminate; try reflexivity; try lia.
Qed.

Lemma no_common_position (a b : bounds) :
  proper a = true -> proper b = true ->
  (forall x, contains a x = true -> contains b x = false) ->
  overlap a b = false.
Proof.
  intros Ha Hb Hx. destruct (overlap a b) eqn:Ho; [| reflexivity].
  destruct (overlap_commonPoint a b Ha Hb Ho) as [H1 H2].
  rewrite (Hx _ H1) in H2. discriminate.
Qed.

Lemma subtractEach_unchanged (l : list value) (b : bounds) :
  forallb properEntry l = true -> proper b = true ->
  (forall x, existsb (fun e => covers e x) l = true -> contains b x = false) ->
  subtractEach l (VObj b) = Ok l.
Proof.
  intros Hl Hb. induction l as [| e rest IH]; intros Hx; simpl; [reflexivity |].
  simpl in Hl. apply andb_true_iff in Hl as [He Hrest].
  rewrite (IH Hrest) by (intros x H; apply Hx; simpl; rewrite H; apply orb_true_r).
  destruct e as [| | p | lp |]; simpl in He; try discriminate; [reflexivity |].
  rewrite (subtractBounds_unchanged p b He Hb); [reflexivity |].
  apply no_common_position; try assumption.
  intros x H. apply Hx. simpl. rewrite H. reflexivity.
Qed.

(** X8: subtracting the same Bounds a second time changes nothing: for a
    value whose Bounds all have [minWidth < maxWidth] and such a Bounds B,
    [subtract(subtract(A, B), B) = subtract(A, B)]. *)
Theorem subtractBounds_twice (boundsA : value) (b : bounds) :
  properValue boundsA = true -> proper b = true ->
  exists v,
    subtractBounds boundsA (VObj b) = Ok v /\
    subtractBounds v (VObj b) = Ok v.
Proof.
  intros HA Hb.
  destruct (subtractBounds_difference_proper boundsA b HA Hb) as [v [Hv [Hp Hx]]].
  exists v. split; [exact Hv |].
  assert (Hout : forall x, covers v x = true -> contains b x = false).
  { intros x H. rewrite Hx in H. apply andb_true_iff in H as [_ H].
    apply negb_true_iff in H. exact H. }
  destruct v as [| | p | l |]; simpl in Hp; try discriminate.
  - reflexivity.
  - apply subtractBounds_unchanged; try assumption.
    apply no_common_position; assumption.
  - rewrite subtractBounds_array, (subtractEach_unchanged l b Hp Hb Hout).
    reflexivity.
Qed.

Lemma subtractBounds_twice_witness :
  exists v,
    subtractBounds (VArr [VObj (mkBounds (Fin 0) (Fin 1200))])
                   (VObj (mkBounds (Fin 600) (Fin 768))) = Ok v /\
    subtractBounds v (VObj (mkBounds (Fin 600) (Fin 768))) = Ok v.
Proof. apply subtractBounds_twice; reflexivity. Defined.

(** ** Further properties of the two patterns and of the parser *)

Lemma stripPrefix_complete (p rest : string) :
  stripPrefix p (p ++ rest)%string = Some rest.
Proof.
  induction p as [| c p IH]; simpl; [reflexivity |].
  rewrite Ascii.eqb_refl. exact IH.
Qed.

Lemma digit_not_sign (c : ascii) : isDigit c = true -> isSign c = false.
Proof.
  destruct c as [[] [] [] [] [] [] [] []]; intros H; try reflexivity; discriminate.
Qed.

Lemma spanDigits_complete (ds rest : string) :
  allDigits ds = true ->
  spanDigits (ds ++ String "p" rest)%string = (ds, String "p" rest).
Proof.
  induction ds as [| d ds IH]; intros H; [reflexivity |].
  simpl in H. apply andb_true_iff in H as [Hd Hds].
  cbn [append spanDigits]. rewrite Hd, (IH Hds). reflexivity.
Qed.

Lemma matchWidthHere_complete (tok sign ds rest : string) :
  sign = "" \/ sign = "+" \/ sign = "-" ->
  ds <> "" -> allDigits ds = true ->
  matchWidthHere tok (tok ++ sign ++ ds ++ "px" ++ rest)%string = Some (sign ++ ds)%string.
Proof.
  intros Hsign Hne Hds. unfold matchWidthHere.
  rewrite stripPrefix_complete.
  destruct ds as [| d ds]; [contradiction |].
  assert (Hd : isDigit d = true).
  { simpl in Hds. apply andb_true_iff in Hds as [Hd _]. exact Hd. }
  change ("px" ++ rest)%string with (String "p" (String "x" rest)).
  destruct Hsign as [-> | [-> | ->]].
  - cbn [append]. rewrite (digit_not_sign d Hd).
    change (String d (ds ++ String "p" (String "x" rest)))%string
      with (String d ds ++ String "p" (String "x" rest))%string.
    rewrite (spanDigits_complete _ _ Hds). reflexivity.
  - cbn [append]. change (isSign "+") with true. cbv iota.
    change (String d (ds ++ String "p" (String "x" rest)))%string
      with (String d ds ++ String "p" (String "x" rest))%string.
    rewrite (spanDigits_complete _ _ Hds). reflexivity.
  - cbn [append]. change (isSign "-") with true. cbv iota.
    change (String d (ds ++ String "p" (String "x" rest)))%string
      with (String d ds ++ String "p" (String "x" rest))%string.
    rewrite (spanDigits_complete _ _ Hds). reflexivity.
Qed.

(** X10: a width pattern matches at the head of a text exactly when the text
    is the literal prefix, an optional sign, one or more digits and [px],
    followed by anything; group 1 is the sign with the digits. *)
Theorem matchWidthHere_shape (tok s cap : string) :
  matchWidthHere tok s = Some cap <->
  exists sign ds rest,
    cap = (sign ++ ds)%string /\
    s = (tok ++ sign ++ ds ++ "px" ++ rest)%string /\
    (sign = "" \/ sign = "+" \/ sign = "-") /\
    ds <> "" /\ allDigits ds = true.
Proof.
  split.
  - apply matchWidthHere_sound.
  - intros [sign [ds [rest [-> [-> [Hsign [Hne Hds]]]]]]].
    apply matchWidthHere_complete; assumption.
Qed.

(** X11: [exec] fails exactly when the pattern matches at no position of the
    text, and otherwise captures at the leftmost position that matches. *)
Theorem execWidth_leftmost_match (tok s : string) :
  (execWidth tok s = None <->
   forall before after, s = (before ++ after)%string -> matchWidthHere tok after = None) /\
  (forall cap,
      execWidth tok s = Some cap ->
      exists before after,
        s = (before ++ after)%string /\
        matchWidthHere tok after = Some cap /\
        forall before' after',
          s = (before' ++ after')%string ->
          (String.length before' < String.length before)%nat ->
          matchWidthHere tok after' = None).
Proof.
  induction s as [| c s [IHnone IHsome]].
  - split.
    + simpl. destruct (matchWidthHere tok "") eqn:Hm.
      * split; [discriminate |]. intros H. rewrite (H "" "" eq_refl) in Hm. discriminate.
      * split; [| reflexivity]. intros _ before after H.
        destruct before; [| discriminate]. simpl in H. subst after. exact Hm.
    + intros cap H. simpl in H.
      destruct (matchWidthHere tok "") eqn:Hm; [| discriminate].
      exists "", "". split; [reflexivity |]. split; [congruence |].
      intros before' after' _ Hlt. simpl in Hlt. lia.
  - split.
    + simpl. destruct (matchWidthHere tok (String c s)) eqn:Hm.
      * split; [discriminate |]. intros H.
        rewrite (H "" (String c s) eq_refl) in Hm. discriminate.
      * rewrite IHnone. split.
        -- intros H before after Hs. destruct before as [| c' before].
           ++ simpl in Hs. subst after. exact Hm.
           ++ simpl in Hs. injection Hs as _ Hs. apply (H before after Hs).
        -- intros H before after Hs. apply (H (String c before) after).
           simpl. rewrite Hs. reflexivity.
    + intros cap H. simpl in H.
      destruct (matchWidthHere tok (String c s)) eqn:Hm.
      * exists "", (String c s). split; [reflexivity |]. split; [congruence |].
        intros before' after' _ Hlt. simpl in Hlt. lia.
      * destruct (IHsome cap H) as [before [after [Hs [Hmatch Hleft]]]].
        exists (String c before), after. split; [simpl; rewrite Hs; reflexivity |].
        split; [exact Hmatch |].
        intros before' after' Hs' Hlt. destruct before' as [| c' before'].
        -- simpl in Hs'. subst after'. exact Hm.
        -- simpl in Hs'. injection Hs' as _ Hs'. apply (Hleft before' after' Hs').
           simpl in Hlt. lia.
Qed.

Lemma boundsOfWidths_endpoints (minW maxW : num) :
  let b := boundsOfWidths minW maxW in
  (Js.gt (minWidth b) (Fin 0) = true \/ Js.gt (maxWidth b) (Fin 0) = true ->
   numeric b = true /\
   (minWidth b = NegInf \/ Js.ge (minWidth b) (Fin 0) = true) /\
   Js.ge (maxWidth b) (Fin 0) = true) /\
  (forall z, minWidth b = Fin z -> z < 0 -> Js.gt (maxWidth b) (Fin 0) = false) /\
  (forall z, maxWidth b = Fin z -> z < 0 -> Js.gt (minWidth b) (Fin 0) = false).
Proof.
  unfold boundsOfWidths, numeric. cbv zeta.
  destruct minW, maxW; js_unfold; simpl; zbool; simpl;
    (repeat split; intros;
     repeat match goal with
       | Hz : Fin _ = Fin _ |- _ => injection Hz as Hz; subst
       | Hor : _ \/ _ |- _ => destruct Hor
       end;
     try discriminate; try reflexivity; auto; zbool;
     try reflexivity; try (exfalso; lia); try (left; reflexivity);
     try (right; reflexivity);
     try (right; apply Z.leb_le; lia); try (apply Z.leb_le; lia)).
Qed.

(** X12: when an endpoint the parser returns is positive, neither endpoint
    is [NaN], [minWidth] is negative infinity or not negative and [maxWidth]
    is not negative; and a negative finite endpoint only comes with an other
    endpoint that is not positive. *)
Theorem getQueryBounds_endpoints (normalize : string -> string) (query : string) :
  let b := getQueryBounds normalize query in
  (Js.gt (minWidth b) (Fin 0) = true \/ Js.gt (maxWidth b) (Fin 0) = true ->
   numeric b = true /\
   (minWidth b = NegInf \/ Js.ge (minWidth b) (Fin 0) = true) /\
   Js.ge (maxWidth b) (Fin 0) = true) /\
  (forall z, minWidth b = Fin z -> z < 0 -> Js.gt (maxWidth b) (Fin 0) = false) /\
  (forall z, maxWidth b = Fin z -> z < 0 -> Js.gt (minWidth b) (Fin 0) = false).
Proof. unfold getQueryBounds. cbv zeta. apply boundsOfWidths_endpoints. Qed.

Lemma getQueryBounds_endpoints_witness :
  numeric (getQueryBounds removeSpaces "(max-width: 600px)") = true /\
  (minWidth (getQueryBounds removeSpaces "(max-width: 600px)") = NegInf \/
   Js.ge (minWidth (getQueryBounds removeSpaces "(max-width: 600px)")) (Fin 0) = true) /\
  Js.ge (maxWidth (getQueryBounds removeSpaces "(max-width: 600px)")) (Fin 0) = true.
Proof.
  apply (proj1 (getQueryBounds_endpoints removeSpaces "(max-width: 600px)")).
  right. reflexivity.
Defined.

(** ** Further properties of the table, the groups and the candidates *)

Lemma overlap_self (b : bounds) : proper b = true -> overlap b b = true.
Proof. intros Hb. bounds_cases. unfold overlap. simpl. num_cases. Qed.

Lemma contains_somePoint (b : bounds) :
  proper b = true -> contains b (somePoint b) = true.
Proof.
  intros Hb. apply (overlap_commonPoint b b Hb Hb (overlap_self b Hb)).
Qed.

Section PluginFurther.

Variable normalize : string -> string.
Variable opts : options.


(** X14: [getGroupName] returns the first key of [options.groups], in key
    order, whose group accepts the name (a pattern that matches it, or a
    list that holds it), and nothing when no group accepts it. *)
Theorem getGroupName_first (name : string) :
  getGroupName opts name = find (groupAccepts opts name) (keys (groups opts)) /\
  (forall groupName,
      getGroupName opts name = Some groupName ->
      exists before after,
        keys (groups opts) = before ++ groupName :: after /\
        groupAccepts opts name groupName = true /\
        Forall (fun g => groupAccepts opts name g = false) before) /\
  (getGroupName opts name = None <->
   Forall (fun g => groupAccepts opts name g = false) (keys (groups opts))).
Proof.
  assert (Hfind : getGroupName opts name
                  = find (groupAccepts opts name) (keys (groups opts))).
  { unfold getGroupName. generalize (keys (groups opts)) as ks.
    induction ks as [| g ks IH]; simpl; [reflexivity |].
    unfold groupAccepts at 1.
    destruct (lookup (groups opts) g) as [[matches | members |] |];
      try exact IH.
    - destruct (matches name); [reflexivity | exact IH].
    - destruct (existsb (String.eqb name) members); [reflexivity | exact IH]. }
  split; [exact Hfind |]. rewrite Hfind. generalize (keys (groups opts)) as ks.
  intros ks. split.
  - induction ks as [| g ks IH]; simpl; intros groupName H; [discriminate |].
    destruct (groupAccepts opts name g) eqn:Hg.
    + injection H as <-. exists [], ks. repeat split; [exact Hg | constructor].
    + destruct (IH groupName H) as [before [after [-> [Ha Hb]]]].
      exists (g :: before), after. repeat split; [exact Ha |].
      constructor; assumption.
  - induction ks as [| g ks IH]; simpl.
    + split; [constructor | reflexivity].
    + destruct (groupAccepts opts name g) eqn:Hg.
      * split; [discriminate |]. intros H. inversion H; subst. congruence.
      * rewrite IH. split.
        -- intros H. constructor; assumption.
        -- intros H. inversion H; subst. assumption.
Qed.

(** X15: the bucket name of a candidate is its label after a dash and a
    prefix: the name of the first accepting group when that name is not
    empty, the basename of the file otherwise. *)
Theorem bucketName_prefix (label : option string) :
  exists prefix,
    bucketName opts label = (prefix ++ "-" ++ text label)%string /\
    ((getGroupName opts (basename opts) = Some prefix /\ prefix <> "") \/
     (prefix = basename opts /\
      (getGroupName opts (basename opts) = None \/
       getGroupName opts (basename opts) = Some ""))).
Proof.
  unfold bucketName. cbv zeta.
  destruct (getGroupName opts (basename opts)) as [g |]; simpl.
  - destruct (String.eqb_spec g "") as [-> | Hne]; simpl.
    + exists (basename opts). split; [reflexivity |]. right. auto.
    + exists g. split; [reflexivity |]. left. auto.
  - exists (basename opts). split; [reflexivity |]. right. auto.
Qed.



End PluginFurther.


Lemma getGroupName_first_witness :
  exists before after,
    keys (groups (mkOptions [] [("pages", GRegExp (String.eqb "index"));
                                ("layout", GArray ["header"; "footer"])] "header" "out"))
    = before ++ "layout" :: after /\
    groupAccepts (mkOptions [] [("pages", GRegExp (String.eqb "index"));
                                ("layout", GArray ["header"; "footer"])] "header" "out")
                 "header" "layout" = true /\
    Forall (fun g => groupAccepts
                       (mkOptions [] [("pages", GRegExp (String.eqb "index"));
                                      ("layout", GArray ["header"; "footer"])]
                                  "header" "out") "header" g = false) before.
Proof.
  apply (proj1 (proj2 (getGroupName_first
                         (mkOptions [] [("pages", GRegExp (String.eqb "index"));
                                        ("layout", GArray ["header"; "footer"])]
                                    "header" "out") "header"))).
  reflexivity.
Defined.



(** ** Coverage and removal *)

Lemma properEntry_isEntry (l : list value) :
  forallb properEntry l = true -> forallb isEntry l = true.
Proof.
  induction l as [| e l IH]; simpl; [reflexivity |].
  intros H. apply andb_true_iff in H as [He Hl].
  rewrite (IH Hl). destruct e; simpl in *; try discriminate; reflexivity.
Qed.

Lemma uncovered_entries_null (l : list value) :
  forallb properEntry l = true ->
  (forall x, existsb (fun e => covers e x) l = false) ->
  filter truthy l = [].
Proof.
  induction l as [| e l IH]; simpl; intros Hl Hx; [reflexivity |].
  apply andb_true_iff in Hl as [He Hl].
  destruct e as [| | p | lp |]; simpl in He; try discriminate.
  - simpl. apply IH; [exact Hl |]. intros x. apply (Hx x).
  - exfalso. specialize (Hx (somePoint p)). simpl in Hx.
    rewrite (contains_somePoint p He) in Hx. discriminate.
Qed.

Lemma add_zero (acc s : num) :
  Js.ge acc (Fin 0) = true -> Js.ge s (Fin 0) = true ->
  Js.ge (Js.add acc s) (Fin 0) = true /\
  (Js.add acc s = Fin 0 <-> acc = Fin 0 /\ s = Fin 0).
Proof.
  intros Ha Hs. unfold Js.ge in *.
  destruct acc as [| | a |], s as [| | b |]; simpl in Ha, Hs; try discriminate;
    try (split; [reflexivity | split; [intros H | intros [H1 H2]]; discriminate]).
  apply Z.leb_le in Ha. apply Z.leb_le in Hs. cbn [Js.add].
  split; [apply roundDouble_ge; [reflexivity | lia] |].
  split.
  - intros H. destruct (Z.eq_dec (a + b) 0) as [Hz | Hnz].
    + split; f_equal; lia.
    + pose proof (roundDouble_ge 1 (a + b) eq_refl ltac:(lia)) as Hge.
      rewrite H in Hge. discriminate.
  - intros [H1 H2]. injection H1 as ->. injection H2 as ->. reflexivity.
Qed.

Lemma sizes_zero (l : list value) (acc : num) :
  forallb properEntry l = true -> Js.ge acc (Fin 0) = true ->
  exists r,
    reduceR (fun size b => s <- getBoundsSize b ;; Ok (Js.add size s))
            (filter truthy l) acc = Ok r /\
    (r = Fin 0 <-> acc = Fin 0 /\ forallb onePixelEntry l = true).
Proof.
  revert acc. induction l as [| e l IH]; simpl; intros acc Hl Hacc.
  - exists acc. split; [reflexivity |]. tauto.
  - apply andb_true_iff in Hl as [He Hl].
    destruct e as [| | p | lp |]; simpl in He; try discriminate.
    + simpl. apply IH; assumption.
    + destruct (size_zero_one_pixel p He) as [s [Hs [Hge Hone]]].
      cbn [filter truthy reduceR]. rewrite Hs. cbn [bind].
      destruct (add_zero acc s Hacc Hge) as [Hsum Hzero].
      destruct (IH (Js.add acc s) Hl Hsum) as [r [Hr Hiff]].
      exists r. split; [exact Hr |].
      rewrite Hiff, Hzero, andb_true_iff, Hone. tauto.
Qed.

Lemma remainderSize_zero (l : list value) :
  forallb properEntry l = true ->
  exists size,
    remainderSize (VArr l) = Ok size /\
    (size = Fin 0 <-> forallb onePixelEntry l = true).
Proof.
  intros Hl. unfold remainderSize. cbn [flat bind].
  rewrite (flat_entries l (properEntry_isEntry l Hl)).
  destruct (sizes_zero l (Fin 0) Hl eq_refl) as [r [Hr Hiff]].
  exists r. split; [exact Hr |]. rewrite Hiff. tauto.
Qed.

Section Coverage.

Variable normalize : string -> string.
Variable opts : options.

Lemma remainder_difference (names : list candidate) :
  fromTable opts names -> properCandidates normalize names ->
  forall l, forallb properEntry l = true ->
  exists l',
    reduceR (subtractCandidate normalize opts) names (VArr l) = Ok (VArr l') /\
    forallb properEntry l' = true /\
    forall x, covers (VArr l') x
              = covers (VArr l) x && negb (coveredBy normalize names x).
Proof.
  intros Ht. induction Ht as [| c names Hc _ IH]; intros Hp l Hl.
  - exists l. split; [reflexivity |]. split; [exact Hl |].
    intros x. simpl. rewrite andb_true_r. reflexivity.
  - inversion Hp as [| c' names' Hpc Hpn]; subst.
    cbn [reduceR]. unfold subtractCandidate at 1.
    rewrite (queriesBoundsAt_key normalize opts _ Hc).
    destruct (subtractBounds_difference_proper (VArr l) _ Hl Hpc) as [v [Hv [Hpv Hx]]].
    rewrite Hv. cbn [bind].
    rewrite subtractBounds_array in Hv.
    destruct (subtractEach l (VObj (getQueryBounds normalize (snd c)))) as [l1 |];
      simpl in Hv; [| discriminate].
    injection Hv as <-.
    destruct (IH Hpn l1 Hpv) as [l' [Hr [Hl' Hx']]].
    exists l'. split; [exact Hr |]. split; [exact Hl' |].
    intros x. rewrite Hx', Hx. unfold coveredBy. cbn [existsb].
    rewrite negb_orb, andb_assoc. reflexivity.
Qed.

Lemma candidates_proper (rule : atRule) :
  proper (getQueryBounds normalize (params rule)) = true ->
  (forall q, In q (keys (queries opts)) ->
             overlap (getQueryBounds normalize (params rule))
                     (getQueryBounds normalize q) = true ->
             proper (getQueryBounds normalize q) = true) ->
  properCandidates normalize
    (candidatesByBounds normalize opts rule ++ candidatesByAlias normalize opts rule).
Proof.
  intros Hrule Htable. unfold properCandidates.
  apply Forall_app. split; apply Forall_forall; intros c Hc.
  - unfold candidatesByBounds in Hc.
    apply in_map_iff in Hc as [q [<- Hq]]. apply filter_In in Hq as [Hq Ho].
    simpl. apply Htable; assumption.
  - unfold candidatesByAlias in Hc.
    apply in_map_iff in Hc as [q [<- Hq]]. apply filter_In in Hq as [Hq Hn].
    simpl. apply String.eqb_eq in Hn. unfold getQueryBounds in *.
    rewrite Hn. exact Hrule.
Qed.

Lemma processAtRule_entries (rule : atRule) (w : world) :
  processAtRule normalize opts rule w
  = (afterEntries w (entriesOf normalize opts rule),
     Ok (removalTest normalize opts rule)).
Proof.
  destruct (residual_total normalize opts rule _ (queryNames_fromTable normalize opts rule))
    as [size Hsize].
  rewrite (processAtRule_eq normalize opts rule _ size w
             (queryNames_eq normalize opts rule) Hsize).
  unfold removalTest, entriesOf. rewrite queryNames_eq, Hsize. reflexivity.
Qed.

Lemma removalTest_hasCandidate (rule : atRule) :
  removalTest normalize opts rule = true -> hasCandidate normalize opts rule = true.
Proof.
  unfold removalTest, hasCandidate. rewrite queryNames_eq.
  destruct (residual _ _ _ _); [| discriminate].
  intros H. apply andb_true_iff in H as [H _]. exact H.
Qed.

Lemma afterEntries_hasCandidate (rule : atRule) (w : world) :
  afterEntries w (entriesOf normalize opts rule)
  = mkWorld (stored w ++ entriesOf normalize opts rule)
            (attached w && negb (hasCandidate normalize opts rule)).
Proof.
  unfold afterEntries, entriesOf, hasCandidate.
  destruct (candidatesByBounds normalize opts rule
            ++ candidatesByAlias normalize opts rule); reflexivity.
Qed.

Lemma processAtRule_removed (rule : atRule) (w : world) :
  removalTest normalize opts rule = true ->
  processAtRule normalize opts rule w
  = (mkWorld (stored w ++ entriesOf normalize opts rule) false, Ok true).
Proof.
  intros H. rewrite processAtRule_entries, H, afterEntries_hasCandidate,
    (removalTest_hasCandidate rule H), andb_false_r.
  reflexivity.
Qed.

Lemma covered_removalTest (rule : atRule) :
  proper (getQueryBounds normalize (params rule)) = true ->
  (forall q, In q (keys (queries opts)) ->
             overlap (getQueryBounds normalize (params rule))
                     (getQueryBounds normalize q) = true ->
             proper (getQueryBounds normalize q) = true) ->
  (forall x, contains (getQueryBounds normalize (params rule)) x = true ->
             coveredBy normalize
               (candidatesByBounds normalize opts rule
                ++ candidatesByAlias normalize opts rule) x = true) ->
  removalTest normalize opts rule = true.
Proof.
  intros Hrule Htable Hcov.
  set (names := candidatesByBounds normalize opts rule
                ++ candidatesByAlias normalize opts rule) in *.
  destruct (remainder_difference names (queryNames_fromTable normalize opts rule)
              (candidates_proper rule Hrule Htable)
              [VObj (getQueryBounds normalize (params rule))])
    as [l' [Hr [Hl' Hx]]].
  { simpl. rewrite Hrule. reflexivity. }
  assert (Hnone : forall x, existsb (fun e => covers e x) l' = false).
  { intros x. specialize (Hx x). simpl in Hx. rewrite orb_false_r in Hx.
    simpl. rewrite Hx.
    destruct (contains (getQueryBounds normalize (params rule)) x) eqn:Hc;
      [| reflexivity].
    rewrite (Hcov x Hc). reflexivity. }
  unfold removalTest. rewrite queryNames_eq. fold names.
  unfold residual, remainderOf. rewrite Hr. cbn [bind].
  unfold remainderSize. cbn [flat bind].
  rewrite (flat_entries l' (properEntry_isEntry l' Hl')),
    (uncovered_entries_null l' Hl' Hnone).
  simpl. rewrite andb_true_r.
  pose proof (Hcov _ (contains_somePoint _ Hrule)) as Hsome.
  destruct names; [discriminate | reflexivity].
Qed.


(** X19: a rule with [minWidth < maxWidth] whose every pixel position lies
    in one of its candidates is removed, provided the breakpoints that
    intersect it have [minWidth < maxWidth]. *)
Theorem covered_rule_removed (rule : atRule) (w : world) :
  proper (getQueryBounds normalize (params rule)) = true ->
  (forall q, In q (keys (queries opts)) ->
             overlap (getQueryBounds normalize (params rule))
                     (getQueryBounds normalize q) = true ->
             proper (getQueryBounds normalize q) = true) ->
  (forall x, contains (getQueryBounds normalize (params rule)) x = true ->
             coveredBy normalize
               (candidatesByBounds normalize opts rule
                ++ candidatesByAlias normalize opts rule) x = true) ->
  processAtRule normalize opts rule w
  = (mkWorld (stored w ++ entriesOf normalize opts rule) false, Ok true).
Proof.
  intros Hrule Htable Hcov.
  apply processAtRule_removed. apply covered_removalTest; assumption.
Qed.

(** X20: a rule with [minWidth < maxWidth] whose text normalizes to that of
    a configured breakpoint is always removed, provided the breakpoints that
    intersect it have [minWidth < maxWidth]. *)
Theorem alias_rule_removed (rule : atRule) (q : string) (w : world) :
  proper (getQueryBounds normalize (params rule)) = true ->
  (forall q', In q' (keys (queries opts)) ->
              overlap (getQueryBounds normalize (params rule))
                      (getQueryBounds normalize q') = true ->
              proper (getQueryBounds normalize q') = true) ->
  In q (keys (queries opts)) ->
  normalize q = normalize (params rule) ->
  processAtRule normalize opts rule w
  = (mkWorld (stored w ++ entriesOf normalize opts rule) false, Ok true).
Proof.
  intros Hrule Htable Hq Hn.
  apply processAtRule_removed. apply (covered_removalTest rule Hrule Htable).
  intros x Hx. unfold coveredBy. apply existsb_exists.
  exists (candidateOf opts q). split.
  - apply in_or_app. right. unfold candidatesByAlias.
    apply in_map. apply filter_In. split; [exact Hq |].
    apply String.eqb_eq. exact Hn.
  - simpl. unfold getQueryBounds in *. rewrite Hn. exact Hx.
Qed.

(** X21: for a rule and breakpoints with [minWidth < maxWidth], the callback
    calls [atRule.remove()] exactly when the rule has a candidate and every
    piece left by the reduction is Empty or one pixel wide: an uncovered gap
    of one pixel passes the test of line 206. *)
Theorem remove_called_iff_single_pixels (rule : atRule) :
  proper (getQueryBounds normalize (params rule)) = true ->
  (forall q, In q (keys (queries opts)) ->
             overlap (getQueryBounds normalize (params rule))
                     (getQueryBounds normalize q) = true ->
             proper (getQueryBounds normalize q) = true) ->
  exists l,
    remainderOf normalize opts rule
      (candidatesByBounds normalize opts rule ++ candidatesByAlias normalize opts rule)
    = Ok (VArr l) /\
    forall w,
      snd (processAtRule normalize opts rule w) = Ok true <->
      candidatesByBounds normalize opts rule ++ candidatesByAlias normalize opts rule <> []
      /\ forallb onePixelEntry l = true.
Proof.
  intros Hrule Htable.
  set (names := candidatesByBounds normalize opts rule
                ++ candidatesByAlias normalize opts rule) in *.
  destruct (remainder_difference names (queryNames_fromTable normalize opts rule)
              (candidates_proper rule Hrule Htable)
              [VObj (getQueryBounds normalize (params rule))])
    as [l' [Hr [Hl' _]]].
  { simpl. rewrite Hrule. reflexivity. }
  exists l'. split; [exact Hr |].
  intros w. rewrite processAtRule_entries. cbn [snd].
  assert (Htest : removalTest normalize opts rule = true <->
                  names <> [] /\ forallb onePixelEntry l' = true).
  { unfold removalTest. rewrite queryNames_eq. fold names.
    unfold residual. unfold remainderOf in *. rewrite Hr. cbn [bind].
    destruct (remainderSize_zero l' Hl') as [size [-> Hiff]].
    rewrite andb_true_iff, eq_zero_iff, Hiff.
    destruct names; simpl; split; intros [H1 H2]; split;
      try assumption; try discriminate; try reflexivity. contradiction. }
  rewrite <- Htest. split; [intros H; injection H as H; exact H | intros ->; reflexivity].
Qed.


End Coverage.


Lemma covered_rule_removed_witness :
  processAtRule removeSpaces
    (mkOptions [("(min-width: 0px) and (max-width: 1200px)", "wide")] [] "header" "out")
    (mkAtRule "(min-width: 100px) and (max-width: 768px)" "@media{}") (mkWorld [] true)
  = (mkWorld
       ([] ++ entriesOf removeSpaces
                (mkOptions [("(min-width: 0px) and (max-width: 1200px)", "wide")]
                           [] "header" "out")
                (mkAtRule "(min-width: 100px) and (max-width: 768px)" "@media{}"))
       false,
     Ok true).
Proof.
  apply (covered_rule_removed removeSpaces
           (mkOptions [("(min-width: 0px) and (max-width: 1200px)", "wide")] [] "header" "out")
           (mkAtRule "(min-width: 100px) and (max-width: 768px)" "@media{}")
           (mkWorld [] true)).
  - reflexivity.
  - intros q [<- | []] _. reflexivity.
  - intros x Hx. unfold coveredBy. apply existsb_exists.
    exists (Some "wide", "(min-width: 0px) and (max-width: 1200px)").
    split; [left; reflexivity |].
    change (contains (mkBounds (Fin 100) (Fin 768)) x = true) in Hx.
    change (contains (mkBounds (Fin 0) (Fin 1200)) x = true).
    unfold contains in *. simpl in *.
    apply andb_true_iff in Hx as [H1 H2].
    apply Z.leb_le in H1. apply Z.ltb_lt in H2.
    apply andb_true_iff. split; [apply Z.leb_le | apply Z.ltb_lt]; lia.
Defined.

Lemma alias_rule_removed_witness :
  processAtRule removeSpaces
    (mkOptions [("(max-width: 768px)", "small")] [] "header" "out")
    (mkAtRule "(max-width:768px)" "@media{}") (mkWorld [] true)
  = (mkWorld
       ([] ++ entriesOf removeSpaces
                (mkOptions [("(max-width: 768px)", "small")] [] "header" "out")
                (mkAtRule "(max-width:768px)" "@media{}"))
       false,
     Ok true).
Proof.
  apply (alias_rule_removed removeSpaces
           (mkOptions [("(max-width: 768px)", "small")] [] "header" "out")
           (mkAtRule "(max-width:768px)" "@media{}") "(max-width: 768px)"
           (mkWorld [] true)).
  - reflexivity.
  - intros q [<- | []] _. reflexivity.
  - left. reflexivity.
  - reflexivity.
Defined.

Lemma remove_called_iff_single_pixels_witness :
  exists l,
    remainderOf removeSpaces
      (mkOptions [("(min-width: 0px) and (max-width: 768px)", "small")] [] "header" "out")
      (mkAtRule "(min-width: 0px) and (max-width: 769px)" "@media{}")
      (candidatesByBounds removeSpaces
         (mkOptions [("(min-width: 0px) and (max-width: 768px)", "small")] [] "header" "out")
         (mkAtRule "(min-width: 0px) and (max-width: 769px)" "@media{}")
       ++ candidatesByAlias removeSpaces
            (mkOptions [("(min-width: 0px) and (max-width: 768px)", "small")] [] "header" "out")
            (mkAtRule "(min-width: 0px) and (max-width: 769px)" "@media{}"))
    = Ok (VArr l) /\
    forall w,
      snd (processAtRule removeSpaces
             (mkOptions [("(min-width: 0px) and (max-width: 768px)", "small")] [] "header" "out")
             (mkAtRule "(min-width: 0px) and (max-width: 769px)" "@media{}") w) = Ok true <->
      candidatesByBounds removeSpaces
          (mkOptions [("(min-width: 0px) and (max-width: 768px)", "small")] [] "header" "out")
          (mkAtRule "(min-width: 0px) and (max-width: 769px)" "@media{}")
        ++ candidatesByAlias removeSpaces
             (mkOptions [("(min-width: 0px) and (max-width: 768px)", "small")] [] "header" "out")
             (mkAtRule "(min-width: 0px) and (max-width: 769px)" "@media{}") <> []
      /\ forallb onePixelEntry l = true.
Proof.
  apply remove_called_iff_single_pixels.
  - reflexivity.
  - intros q [<- | []] _. reflexivity.
Defined.

(** A breakpoint that stops one pixel short of the rule passes the test of
    line 206: the piece [[768, 769)] has size 0. *)
Example one_pixel_gap_removed :
  processAtRule removeSpaces
    (mkOptions [("(min-width: 0px) and (max-width: 768px)", "small")] [] "header" "out")
    (mkAtRule "(min-width: 0px) and (max-width: 769px)" "@media{}") (mkWorld [] true)
  = (mkWorld
       [mkMedia "header-small" "@media{}" "out" "(min-width: 0px) and (max-width: 769px)"]
       false,
     Ok true) /\
  remainderOf removeSpaces
    (mkOptions [("(min-width: 0px) and (max-width: 768px)", "small")] [] "header" "out")
    (mkAtRule "(min-width: 0px) and (max-width: 769px)" "@media{}")
    [(Some "small", "(min-width: 0px) and (max-width: 768px)")]
  = Ok (VArr [VNull; VObj (mkBounds (Fin 768) (Fin 769))]).
Proof. split; vm_compute; reflexivity. Qed.

(** In double arithmetic the pieces left by a subtraction can measure more
    than the Bounds they come from. *)
Example pieces_larger_than_whole :
  subtractBounds (VObj (mkBounds (Fin 41) (Fin 144115188075855808)))
                 (VObj (mkBounds (Fin 100) (Fin 101)))
  = Ok (VArr [VObj (mkBounds (Fin 41) (Fin 100));
              VObj (mkBounds (Fin 101) (Fin 144115188075855808))]) /\
  remainderSize (VArr [VObj (mkBounds (Fin 41) (Fin 100));
                       VObj (mkBounds (Fin 101) (Fin 144115188075855808))])
  = Ok (Fin 144115188075855776) /\
  getBoundsSize (VObj (mkBounds (Fin 41) (Fin 144115188075855808)))
  = Ok (Fin 144115188075855760).
Proof. repeat split; vm_compute; reflexivity. Qed.

(** ** Empty in subtraction *)

Lemma subtractEach_null (l : list value) :
  forallb isEntry l = true -> subtractEach l VNull = Ok l.
Proof.
  induction l as [| e l IH]; simpl; intros H; [reflexivity |].
  apply andb_true_iff in H as [He Hl]. rewrite (IH Hl).
  destruct e; simpl in *; try discriminate; reflexivity.
Qed.

Lemma subtractEach_of_nulls (l : list value) (boundsB : value) :
  forallb isNull l = true -> subtractEach l boundsB = Ok l.
Proof.
  induction l as [| e l IH]; simpl; intros H; [reflexivity |].
  apply andb_true_iff in H as [He Hl]. rewrite (IH Hl).
  destruct e; simpl in *; try discriminate; reflexivity.
Qed.

(** X23: Empty is neutral on the right and absorbing on the left: a Bounds
    or a list of Bounds and Empty entries minus Empty is unchanged; Empty,
    or a list of Empty entries, minus anything is unchanged, whatever the
    second argument, [undefined] included. *)
Theorem subtractBounds_empty :
  (forall a, subtractBounds (VObj a) Empty = Ok (VObj a)) /\
  (forall l, forallb isEntry l = true -> subtractBounds (VArr l) Empty = Ok (VArr l)) /\
  (forall boundsB, subtractBounds Empty boundsB = Ok Empty) /\
  (forall l boundsB,
      forallb isNull l = true -> subtractBounds (VArr l) boundsB = Ok (VArr l)).
Proof.
  split; [reflexivity |]. split; [| split; [reflexivity |]].
  - intros l Hl. rewrite subtractBounds_array.
    unfold Empty. rewrite (subtractEach_null l Hl). reflexivity.
  - intros l B Hl. rewrite subtractBounds_array, (subtractEach_of_nulls l B Hl).
    reflexivity.
Qed.

Lemma subtractBounds_empty_witness :
  subtractBounds (VArr [VObj (mkBounds (Fin 0) (Fin 768)); VNull]) Empty
  = Ok (VArr [VObj (mkBounds (Fin 0) (Fin 768)); VNull]).
Proof. apply (proj1 (proj2 subtractBounds_empty)). reflexivity. Defined.

(** ** A rule inside a breakpoint *)

Lemma included_contains (a b : bounds) (x : Z) :
  boundsIncluded (VObj a) (VObj b) = Ok true ->
  contains a x = true -> contains b x = true.
Proof.
  intros Hi Hx. bounds_cases. algebra_unfold. unfold contains in *; simpl in *.
  injection Hi as Hi. apply andb_true_iff in Hi as [H1 H2].
  apply andb_true_iff in Hx as [H3 H4].
  apply andb_true_iff. split; num_cases.
Qed.

Lemma included_overlap (a b : bounds) :
  proper a = true -> boundsIncluded (VObj a) (VObj b) = Ok true -> overlap a b = true.
Proof.
  intros Ha Hi.
  apply (contains_overlap a b (somePoint a)).
  - apply contains_somePoint. exact Ha.
  - apply (included_contains a b _ Hi). apply contains_somePoint. exact Ha.
Qed.

(** X25: a rule with [minWidth < maxWidth] whose bounds are included in
    those of a configured breakpoint is removed, provided the breakpoints
    that intersect it have [minWidth < maxWidth]. *)
Theorem included_rule_removed (normalize : string -> string) (opts : options)
    (rule : atRule) (q : string) (w : world) :
  proper (getQueryBounds normalize (params rule)) = true ->
  (forall q', In q' (keys (queries opts)) ->
              overlap (getQueryBounds normalize (params rule))
                      (getQueryBounds normalize q') = true ->
              proper (getQueryBounds normalize q') = true) ->
  In q (keys (queries opts)) ->
  boundsIncluded (VObj (getQueryBounds normalize (params rule)))
                 (queriesBoundsAt normalize opts q) = Ok true ->
  processAtRule normalize opts rule w
  = (mkWorld (stored w ++ entriesOf normalize opts rule) false, Ok true).
Proof.
  intros Hrule Htable Hq Hi.
  rewrite (queriesBoundsAt_key normalize opts q Hq) in Hi.
  apply processAtRule_removed.
  apply (covered_removalTest normalize opts rule Hrule Htable).
  intros x Hx. unfold coveredBy. apply existsb_exists.
  exists (candidateOf opts q). split.
  - apply in_or_app. left. unfold candidatesByBounds.
    apply in_map. apply filter_In. split; [exact Hq |].
    apply included_overlap; assumption.
  - simpl. apply (included_contains _ _ x Hi Hx).
Qed.

Lemma included_rule_removed_witness :
  processAtRule removeSpaces
    (mkOptions [("(max-width: 1200px)", "wide")] [] "header" "out")
    (mkAtRule "(min-width: 100px) and (max-width: 768px)" "@media{}") (mkWorld [] true)
  = (mkWorld
       ([] ++ entriesOf removeSpaces
                (mkOptions [("(max-width: 1200px)", "wide")] [] "header" "out")
                (mkAtRule "(min-width: 100px) and (max-width: 768px)" "@media{}"))
       false,
     Ok true).
Proof.
  apply (included_rule_removed removeSpaces
           (mkOptions [("(max-width: 1200px)", "wide")] [] "header" "out")
           (mkAtRule "(min-width: 100px) and (max-width: 768px)" "@media{}")
           "(max-width: 1200px)" (mkWorld [] true)).
  - reflexivity.
  - intros q [<- | []] _. reflexivity.
  - left. reflexivity.
  - reflexivity.
Defined.
